(** * nfcsdk: lifecycle and event-loop controller of the NFC SDK

    A shallow embedding of [SDK] (package nfcsdk): [init], [Run],
    [SelectReader], [dispose], [Disposed], [handleCard] and the logging
    facade.  The native PC/SC binding (package pcsc) is consumed through an
    interface; every call into it, every log record and every use of the
    cancellation function and of the wait group is recorded in a trace, so
    that the order of effects can be stated. *)

From Stdlib Require Import ZArith String Ascii Bool Lia.
From stdpp Require Import base option list.

Set Warnings "-register-all".

Open Scope string_scope.
Open Scope list_scope.
Open Scope Z_scope.

(** ** Go errors *)

(** The error values the controller builds or passes on: [errorString] is
    what errors.New returns (and stands for the errors of the native
    binding), [wrapError] is fmt.Errorf with one %w verb, [joinError] is
    errors.Join. *)
Inductive error : Type :=
| errorString (s : string)
| wrapError (msg : string) (err : error)
| joinError (errs : list error).

Definition newline : string := String (ascii_of_nat 10) EmptyString.

(** err.Error() *)
Fixpoint error_Error (e : error) : string :=
  match e with
  | errorString s => s
  | wrapError msg _ => msg
  | joinError errs => String.concat newline (List.map error_Error errs)
  end.

(** errors.Join: nil arguments are dropped; nil when nothing is left. *)
Definition errors_Join (errs : list (option error)) : option error :=
  match omap (fun e : option error => e) errs with
  | [] => None
  | es => Some (joinError es)
  end.

(** fmt.Errorf("%w" ++ suffix, err) *)
Definition Errorf_w (err : error) (suffix : string) : error :=
  wrapError (error_Error err ++ suffix)%string err.

(** ** The native binding, at its boundary *)

Module pcsc.

(** Modelled from the spec: the declaration of pcsc.ReaderState is not in
    the source files; it has the reader name and the two state bitmasks
    the controller reads and writes. *)
Record ReaderState : Type := mkReaderState {
  Reader : string;
  CurrentState : Z;
  EventState : Z;
}.

Definition set_CurrentState (v : Z) (st : ReaderState) : ReaderState :=
  mkReaderState (Reader st) v (EventState st).
Definition set_EventState (v : Z) (st : ReaderState) : ReaderState :=
  mkReaderState (Reader st) (CurrentState st) v.

(** The session handle behind *pcsc.HContext. *)
Inductive HContext : Type := mkHContext (handle : Z).

(** Modelled from the spec: the card handle returned by Connect; only its
    negotiated protocol is read (for a debug record). *)
Record Card : Type := mkCard {
  card_handle : Z;
  Protocol : string;
}.

(** Modelled from the spec: the calls of the resource-manager collaborator
    (establish, isValid, listReaders, waitForChange, connect, disconnect,
    cancel, release) are not in the source files.  Each is a function of
    the state of the outside world [World]; the constants of the package
    and the sentinel error of nfcsdk are members too.  GetStatusChange is
    handed a slice and may write to its entries in place: it answers with
    what it makes of entry [i], for each index [i] (the length of the
    caller's slice is not its to change).  [parentDone] tells whether the
    context the SDK context derives from has been cancelled from
    outside. *)
Class Native : Type := {
  World : Type;
  ScardScopeSystem : Z;
  ScardStateUnaware : Z;
  ScardStatePresent : Z;
  ScardShareExclusive : Z;
  ScardProtocolAny : Z;
  ScardResetCard : Z;
  Error : error;
  SCardEstablishContext :
    Z -> World -> (option HContext * option error) * World;
  IsValid : option HContext -> World -> option error * World;
  ListReaders :
    option HContext -> World -> (list string * option error) * World;
  GetStatusChange :
    option HContext -> list ReaderState -> Z -> World ->
    (option error * (nat -> ReaderState -> ReaderState)) * World;
  Connect :
    option HContext -> string -> Z -> Z -> World -> (Card + error) * World;
  Disconnect : Card -> Z -> World -> option error * World;
  Cancel : option HContext -> World -> option error * World;
  Release : option HContext -> World -> option error * World;
  parentDone : World -> bool;
}.

End pcsc.

(** ** Data model of package nfcsdk *)

Module Reader.
(** Modelled from the spec: the declaration of the Reader struct is not in
    the source files; [init] fills [id] and [name], the selection step
    writes [Use]. *)
Record t : Type := mk {
  id : Z;
  name : string;
  Use : bool;
}.

Definition set_Use (b : bool) (r : t) : t := mk (id r) (name r) b.
End Reader.

(** type ReaderSelectFunc func([]Reader) ([]Reader, error) *)
Definition ReaderSelectFunc : Type :=
list Reader.t -> list Reader.t * option error.

(** The fields of the SDK struct.  [mu] and [wg] hold no data; [ctx] and
  [stop] are the pair made by context.WithCancelCause, of which [cause]
  keeps the error of the first call of [stop] (None while [stop] was not
  called); [logger] is true when the logger pointer is not nil;
  [readerSelect] and [hctx] are None when nil. *)
Record SDK : Type := mkSDK {
cause : option error;
logger : bool;
disposed : bool;
readerSelect : option ReaderSelectFunc;
hctx : option pcsc.HContext;
readers : list Reader.t;
}.

Definition set_cause (v : option error) (s : SDK) : SDK :=
mkSDK v (logger s) (disposed s) (readerSelect s) (hctx s) (readers s).
Definition set_disposed (v : bool) (s : SDK) : SDK :=
mkSDK (cause s) (logger s) v (readerSelect s) (hctx s) (readers s).
Definition set_readerSelect (v : option ReaderSelectFunc) (s : SDK) : SDK :=
mkSDK (cause s) (logger s) (disposed s) v (hctx s) (readers s).
Definition set_hctx (v : option pcsc.HContext) (s : SDK) : SDK :=
mkSDK (cause s) (logger s) (disposed s) (readerSelect s) v (readers s).
Definition set_readers (v : list Reader.t) (s : SDK) : SDK :=
mkSDK (cause s) (logger s) (disposed s) (readerSelect s) (hctx s) v.

(** The zero value of the struct, with or without a logger. *)
Definition zeroSDK (lg : bool) : SDK := mkSDK None lg false None None [].

(** ** Observable effects *)

Inductive Level : Type := LevelDebug | LevelInfo | LevelWarn | LevelError.

(** slog attributes, as far as the controller builds them. *)
Inductive Attr : Type :=
| AttrInt (key : string) (v : Z)
| AttrString (key : string) (v : string)
| AttrGroup (key : string) (attrs : list Attr).

Inductive event : Type :=
| EvLog (level : Level) (msg : string) (args : list Attr)
| EvStop (err : error)
| EvWgWait
| EvEstablish (scope : Z)
| EvIsValid
| EvListReaders
| EvGetStatusChange (before after : list pcsc.ReaderState) (timeout : Z)
  (err : option error)
| EvConnect (reader : string) (share protocol : Z)
| EvDisconnect (card : pcsc.Card) (disposition : Z)
| EvCancel
| EvRelease.

(** ** The machine: SDK fields, outside world, trace of effects *)

Section Controller.

Context {N : pcsc.Native}.

Record Machine : Type := mkMachine {
  sdk : SDK;
  world : pcsc.World;
  trace : list event;
}.

(** A method of the SDK: a state transformer with a result. *)
Definition M (A : Type) : Type := Machine -> A * Machine.

Definition ret {A} (a : A) : M A := fun m => (a, m).
Definition bind {A B} (c : M A) (k : A -> M B) : M B :=
  fun m => let (a, m') := c m in k a m'.

Notation "'do' x <- c ; k" := (bind c (fun x => k))
  (at level 10, x name, c at level 100, k at level 200).
Notation "'do' ' pat <- c ; k" :=
  (bind c (fun x => match x with pat => k end))
  (at level 10, pat pattern, c at level 100, k at level 200).
Notation "c ;; k" := (bind c (fun _ => k))
  (at level 100, k at level 200, right associativity).

Definition gets {A} (f : SDK -> A) : M A := fun m => (f (sdk m), m).
Definition modify (f : SDK -> SDK) : M unit :=
  fun m => (tt, mkMachine (f (sdk m)) (world m) (trace m)).
Definition emit (e : event) : M unit :=
  fun m => (tt, mkMachine (sdk m) (world m) (trace m ++ [e])).
(** A call into the outside world, recorded by [ev]. *)
Definition native {A} (call : pcsc.World -> A * pcsc.World)
    (ev : A -> event) : M A :=
  fun m => let (a, w) := call (world m) in
           (a, mkMachine (sdk m) w (trace m ++ [ev a])).

Definition exec {A} (c : M A) (m : Machine) : Machine := snd (c m).
Definition eval {A} (c : M A) (m : Machine) : A := fst (c m).

(** *** Logging facade *)

Definition logPrefix : string := "nfc: ".

Definition Log (level : Level) (msg : string) (args : list Attr) : M unit :=
  do lg <- gets logger ;
  if negb lg then ret tt
  else emit (EvLog level (logPrefix ++ msg)%string args).

Definition debug (msg : string) (args : list Attr) : M unit :=
  Log LevelDebug msg args.
Definition info (msg : string) (args : list Attr) : M unit :=
  Log LevelInfo msg args.
Definition warn (msg : string) (args : list Attr) : M unit :=
  Log LevelWarn msg args.
(** SDK.error (the name [error] is the type of Go errors here). *)
Definition log_error (err : option error) : M unit :=
  match err with
  | None => ret tt
  | Some e => Log LevelError (error_Error e) []
  end.

(** *** Context and wait group *)

(** <-s.ctx.Done() is ready: [stop] was called, or the parent context was
    cancelled. *)
Definition ctx_Done : M bool :=
  fun m => (bool_decide (is_Some (cause (sdk m))) || pcsc.parentDone (world m), m).

(** s.stop(err): the first cancellation wins. *)
Definition stop (err : error) : M unit :=
  emit (EvStop err) ;;
  do d <- ctx_Done ;
  if d then ret tt else modify (set_cause (Some err)).

(** s.wg.Wait() *)
Definition wg_Wait : M unit := emit EvWgWait.

(** *** Calls on s.hctx *)

Definition hctx_IsValid : M (option error) :=
  do h <- gets hctx ; native (pcsc.IsValid h) (fun _ => EvIsValid).
Definition hctx_ListReaders : M (list string * option error) :=
  do h <- gets hctx ; native (pcsc.ListReaders h) (fun _ => EvListReaders).
Definition hctx_Cancel : M (option error) :=
  do h <- gets hctx ; native (pcsc.Cancel h) (fun _ => EvCancel).
Definition hctx_Release : M (option error) :=
  do h <- gets hctx ; native (pcsc.Release h) (fun _ => EvRelease).
Definition hctx_Connect (readerName : string) (share protocol : Z)
    : M (pcsc.Card + error) :=
  do h <- gets hctx ;
  native (pcsc.Connect h readerName share protocol)
         (fun _ => EvConnect readerName share protocol).
Definition card_Disconnect (card : pcsc.Card) (disposition : Z)
    : M (option error) :=
  native (pcsc.Disconnect card disposition)
         (fun _ => EvDisconnect card disposition).

(** The entries as the native call leaves them: entry [i] is what the
    call made of it. *)
Definition written (wr : nat -> pcsc.ReaderState -> pcsc.ReaderState)
    (states : list pcsc.ReaderState) : list pcsc.ReaderState :=
  imap wr states.

(** s.hctx.GetStatusChange(states, timeout): the slice is mutated in
    place, so the caller goes on with the written entries. *)
Definition hctx_GetStatusChange (states : list pcsc.ReaderState)
    (timeout : Z) : M (option error * list pcsc.ReaderState) :=
  do h <- gets hctx ;
  native
    (fun w => let '((err, wr), w') := pcsc.GetStatusChange h states timeout w in
              ((err, written wr states), w'))
    (fun r => EvGetStatusChange states (snd r) timeout (fst r)).

(** ** The methods of the SDK *)

(** SDK.Disposed *)
Definition Disposed : M bool := gets disposed.

(** SDK.SelectReader: [fn] is None for a nil function. *)
Definition SelectReader (fn : option ReaderSelectFunc) : M unit :=
  do cur <- gets readerSelect ;
  match cur with
  | Some _ => warn "reader select callback can only be attached once" []
  | None => modify (set_readerSelect fn)
  end.

(** The range loop of [init]: entry [i] of the names gets id [i + 1]. *)
Fixpoint init_range (i : nat) (readerNames : list string) : M unit :=
  match readerNames with
  | [] => ret tt
  | readerName :: rest =>
      let reader := Reader.mk (Z.of_nat i + 1) readerName false in
      debug "found"
        [AttrGroup "reader" [AttrInt "id" (Reader.id reader);
                             AttrString "name" readerName]] ;;
      modify (fun s => set_readers (readers s ++ [reader]) s) ;;
      init_range (S i) rest
  end.

(** SDK.init *)
Definition init : M (option error) :=
  do r <- native (pcsc.SCardEstablishContext pcsc.ScardScopeSystem)
                 (fun _ => EvEstablish pcsc.ScardScopeSystem) ;
  modify (set_hctx (fst r)) ;;
  match snd r with
  | Some e => ret (Some e)
  | None =>
      debug "scard context established" [] ;;
      do l <- hctx_ListReaders ;
      match snd l with
      | Some e => ret (Some e)
      | None =>
          if bool_decide (length (fst l) = 0%nat)
          then ret (Some (Errorf_w pcsc.Error ": no readers returned by ListReaders"))
          else init_range 0 (fst l) ;; ret None
      end
  end.

(** SDK.dispose *)
Definition dispose : M unit :=
  do d <- Disposed ;
  if d then warn "sdk already disposed" []
  else
    modify (set_disposed true) ;;
    debug "disposing..." [] ;;
    do h <- gets hctx ;
    match h with
    | Some _ =>
        debug "cancel pending actions" [] ;;
        do err <- hctx_Cancel ;
        log_error err ;;
        debug "released scard context" [] ;;
        do err <- hctx_Release ;
        log_error err
    | None => ret tt
    end ;;
    debug "sdk disposed" [].

(** SDK.handleCard *)
Definition handleCard (readerName : string) : M unit :=
  do r <- hctx_Connect readerName pcsc.ScardShareExclusive pcsc.ScardProtocolAny ;
  match r with
  | inr err => log_error (Some err)
  | inl card =>
      debug "card connected" [AttrString "protocols" (pcsc.Protocol card)] ;;
      do err <- card_Disconnect card pcsc.ScardResetCard ;
      match err with
      | Some e => log_error (Some e)
      | None => debug "card disconnected" []
      end
  end.

(** The per-reader states built from the inventory: one entry for each
    reader in use, CurrentState unaware, EventState the zero value. *)
Definition build_states (rs : list Reader.t) : list pcsc.ReaderState :=
  (fun reader => pcsc.mkReaderState (Reader.name reader) pcsc.ScardStateUnaware 0)
    <$> filter (fun reader => Reader.Use reader = true) rs.

(** The present bit of a state bitmask. *)
Definition present (state : Z) : bool :=
  negb (Z.eqb (Z.land state pcsc.ScardStatePresent) 0).

(** The inner loop, for i := range states, over the indices still to
    visit.  The result is the error that broke out of the runner loop, if
    any, with the entries as they are then.  Every index visited is below
    the length of the slice (the range clause), so the lookup finds its
    entry. *)
Fixpoint range_states (idxs : list nat) (states : list pcsc.ReaderState)
    : M (option error * list pcsc.ReaderState) :=
  match idxs with
  | [] => ret (None, states)
  | i :: rest =>
      let states :=
        alter (fun st => pcsc.set_CurrentState (pcsc.EventState st) st) i states in
      match states !! i with
      | None => ret (None, states)
      | Some st =>
          if present (pcsc.EventState st) then
            debug "card is present in the reader." [] ;;
            do err <- hctx_IsValid ;
            match err with
            | Some e => log_error (Some e) ;; ret (Some e, states)
            | None => handleCard (pcsc.Reader st) ;; range_states rest states
            end
          else
            debug "no card present, waiting..." [] ;;
            range_states rest states
      end
  end.

(** The loop labelled runner, one unit of fuel for each iteration.  [err]
    is the named result of Run as the loop finds it.  None: the fuel ran
    out with the loop still going; Some err: the loop was left with the
    named result holding [err]. *)
Fixpoint runner (fuel : nat) (err : option error)
    (states : list pcsc.ReaderState) : M (option (option error)) :=
  match fuel with
  | O => ret None
  | S fuel =>
      do done <- ctx_Done ;
      if done then ret (Some err)
      else
        do err <- hctx_IsValid ;
        match err with
        | Some e => log_error (Some e) ;; ret (Some (Some e))
        | None =>
            do r <- hctx_GetStatusChange states (-1) ;
            match fst r with
            | Some e => log_error (Some e) ;; ret (Some (Some e))
            | None =>
                do r' <- range_states (seq 0 (length (snd r))) (snd r) ;
                match fst r' with
                | Some e => ret (Some (Some e))
                | None => runner fuel None (snd r')
                end
            end
        end
  end.

(** The selection step of Run: the registered function replaces the
    inventory with what it returns and gives the error; without one the
    first reader is put in use (index 0 exists: Run has returned already on
    an empty inventory). *)
Definition select_readers : M (option error) :=
  do sel <- gets readerSelect ;
  match sel with
  | Some fn =>
      do rs <- gets readers ;
      let r := fn rs in
      modify (set_readers (fst r)) ;;
      ret (snd r)
  | None =>
      modify (fun s => set_readers (alter (Reader.set_Use true) 0%nat (readers s)) s) ;;
      ret None
  end.

(** SDK.Run.  None: the fuel ran out inside the loop; Some err: Run
    returned err. *)
Definition Run (fuel : nat) : M (option (option error)) :=
  do err <- hctx_IsValid ;
  match err with Some _ => log_error err | None => ret tt end ;;
  do rs <- gets readers ;
  let err :=
    if bool_decide (length rs = 0%nat)
    then errors_Join [err; Some (Errorf_w pcsc.Error ": no readers present")]
    else err in
  match err with
  | Some e => stop e ;; wg_Wait ;; ret (Some (Some e))
  | None =>
      do err <- select_readers ;
      match err with
      | Some e => stop e ;; wg_Wait ;; ret (Some (Some e))
      | None =>
          do rs <- gets readers ;
          let states := build_states rs in
          if bool_decide (length states = 0%nat) then
            let e := Errorf_w pcsc.Error ": no readers enabled" in
            stop e ;; wg_Wait ;; ret (Some (Some e))
          else
            do r <- runner fuel None states ;
            match r with
            | None => ret None
            | Some err => wg_Wait ;; debug "exiting" [] ;; ret (Some err)
            end
      end
  end.

End Controller.

(** ** Vocabulary of the properties *)

Section Vocabulary.

Context {N : pcsc.Native}.

(** The wait-for-change calls of a trace, in order: the entries as passed
    in and as the call left them. *)
Definition wait_calls (tr : list event)
    : list (list pcsc.ReaderState * list pcsc.ReaderState) :=
  omap (fun e => match e with
                 | EvGetStatusChange before after _ _ => Some (before, after)
                 | _ => None
                 end) tr.

(** The errors handed to the cancellation function, in order. *)
Definition stops (tr : list event) : list error :=
  omap (fun e => match e with EvStop err => Some err | _ => None end) tr.

Definition is_wait (e : event) : bool :=
  match e with EvGetStatusChange _ _ _ _ => true | _ => false end.
Definition is_warning (e : event) : bool :=
  match e with EvLog LevelWarn _ _ => true | _ => false end.
Definition is_connect (e : event) : bool :=
  match e with EvConnect _ _ _ => true | _ => false end.
Definition is_disconnect (e : event) : bool :=
  match e with EvDisconnect _ _ => true | _ => false end.
Definition is_wg_wait (e : event) : bool :=
  match e with EvWgWait => true | _ => false end.
Definition is_teardown (e : event) : bool :=
  match e with EvCancel | EvRelease => true | _ => false end.

(** The events the card session handler and the per-reader checks produce:
    log records, validity checks, connect and disconnect. *)
Definition card_event (e : event) : bool :=
  match e with
  | EvLog _ _ _ | EvIsValid | EvConnect _ _ _ | EvDisconnect _ _ => true
  | _ => false
  end.

(** The events of the runner loop: those of the handler, and the wait
    calls. *)
Definition loop_event (e : event) : bool :=
  card_event e || is_wait e.

(** The events of Run: those of the loop, the cancellation and the wait on
    the wait group. *)
Definition run_event (e : event) : bool :=
  match e with
  | EvStop _ | EvWgWait => true
  | _ => loop_event e
  end.

(** Run and SelectReader leave these fields of the SDK alone. *)
Definition same_session (s s' : SDK) : Prop :=
  logger s' = logger s /\ disposed s' = disposed s /\ hctx s' = hctx s.

(** The record a logging call adds to the trace: one record when a logger
    is attached, nothing otherwise. *)
Definition logged (s : SDK) (level : Level) (msg : string)
    (args : list Attr) : list event :=
  if logger s then [EvLog level (logPrefix ++ msg)%string args] else [].

(** How many events of a trace satisfy [p]. *)
Definition count (p : event -> bool) (tr : list event) : nat :=
  length (List.filter p tr).

(** What the handler adds to the trace after its connect call, and where
    it leaves the outside world, by the answer [r] of connect given in
    world [w1]. *)
Definition after_connect (s : SDK) (r : pcsc.Card + error) (w1 : pcsc.World)
    : list event * pcsc.World :=
  match r with
  | inr err => (logged s LevelError (error_Error err) [], w1)
  | inl card =>
      let d := pcsc.Disconnect card pcsc.ScardResetCard w1 in
      (logged s LevelDebug "card connected"
         [AttrString "protocols" (pcsc.Protocol card)] ++
       [EvDisconnect card pcsc.ScardResetCard] ++
       match fst d with
       | Some e => logged s LevelError (error_Error e) []
       | None => logged s LevelDebug "card disconnected" []
       end,
       snd d)
  end.

(** [c] started in [m] changes the SDK fields only along [S] and adds to the
    trace only events that satisfy [P]. *)
Definition frame (S : SDK -> SDK -> Prop) (P : event -> Prop)
    {A} (c : M A) : Prop :=
  forall m, S (sdk m) (sdk (exec c m)) /\
            exists evs, trace (exec c m) = trace m ++ evs /\ Forall P evs.

(** What one iteration of the inner loop does to an entry. *)
Definition arm (st : pcsc.ReaderState) : pcsc.ReaderState :=
  pcsc.set_CurrentState (pcsc.EventState st) st.


(** The calls an embedding application (or the SDK's own background task)
    can make on an SDK. *)
Inductive call : Type :=
| CallInit
| CallRun (fuel : nat)
| CallSelectReader (fn : option ReaderSelectFunc)
| CallDisposed
| CallDispose.

Definition is_dispose (c : call) : bool :=
  match c with CallDispose => true | _ => false end.

Definition do_call (c : call) (m : Machine) : Machine :=
  match c with
  | CallInit => exec init m
  | CallRun fuel => exec (Run fuel) m
  | CallSelectReader fn => exec (SelectReader fn) m
  | CallDisposed => exec Disposed m
  | CallDispose => exec dispose m
  end.

Definition do_calls (cs : list call) (m : Machine) : Machine :=
  foldl (fun m c => do_call c m) m cs.

(** The inventory [init] builds from the names it was given. *)
Definition discovered (readerNames : list string) : list Reader.t :=
  imap (fun i readerName => Reader.mk (Z.of_nat i + 1) readerName false)
       readerNames.

(** The SDK fields after s.stop(err) in world [w]: the cause is recorded
    unless the context was cancelled before. *)
Definition cancelled (err : error) (s : SDK) (w : pcsc.World) : SDK :=
  if bool_decide (is_Some (cause s)) || pcsc.parentDone w then s
  else set_cause (Some err) s.

(** The errors of Run's own making. *)
Definition errNoReadersPresent : error :=
  Errorf_w pcsc.Error ": no readers present".
Definition errNoReadersEnabled : error :=
  Errorf_w pcsc.Error ": no readers enabled".

End Vocabulary.

(** ** A scripted outside world

    The answers of the resource manager as functions of a clock that ticks
    once for each native call.  A wait call answers with an error or nil and
    with the event state of each entry, by index, which it writes to
    EventState of the entry. *)

Record Script : Type := mkScript {
  on_establish : nat -> option pcsc.HContext * option error;
  on_list : nat -> list string * option error;
  on_valid : nat -> option error;
  on_wait : nat -> option error * (nat -> Z);
  on_connect : nat -> string -> pcsc.Card + error;
  on_disconnect : nat -> option error;
  on_cancel : nat -> option error;
  on_release : nat -> option error;
  on_done : nat -> bool;
}.

(** The constants have their PC/SC values; the sentinel error is named after
    the package. *)
Definition scripted (sc : Script) : pcsc.Native := {|
  pcsc.World := nat;
  pcsc.ScardScopeSystem := 2;
  pcsc.ScardStateUnaware := 0;
  pcsc.ScardStatePresent := 32;
  pcsc.ScardShareExclusive := 1;
  pcsc.ScardProtocolAny := 3;
  pcsc.ScardResetCard := 1;
  pcsc.Error := errorString "nfcsdk";
  pcsc.SCardEstablishContext := fun _ t => (on_establish sc t, S t);
  pcsc.IsValid := fun _ t => (on_valid sc t, S t);
  pcsc.ListReaders := fun _ t => (on_list sc t, S t);
  pcsc.GetStatusChange := fun _ _ _ t =>
    ((fst (on_wait sc t), fun i st => pcsc.set_EventState (snd (on_wait sc t) i) st),
     S t);
  pcsc.Connect := fun _ readerName _ _ t => (on_connect sc t readerName, S t);
  pcsc.Disconnect := fun _ _ t => (on_disconnect sc t, S t);
  pcsc.Cancel := fun _ t => (on_cancel sc t, S t);
  pcsc.Release := fun _ t => (on_release sc t, S t);
  pcsc.parentDone := on_done sc;
|}.

(** A healthy resource manager with readers R0 and R1: every call
    succeeds, each wait reports a card present in every tracked reader, the
    parent context is never cancelled. *)
Definition healthy : Script := {|
  on_establish := fun _ => (Some (pcsc.mkHContext 1), None);
  on_list := fun _ => (["R0"; "R1"], None);
  on_valid := fun _ => None;
  on_wait := fun _ => (None, fun _ => 32);
  on_connect := fun _ _ => inl (pcsc.mkCard 7 "T=1");
  on_disconnect := fun _ => None;
  on_cancel := fun _ => None;
  on_release := fun _ => None;
  on_done := fun _ => false;
|}.

Definition errConnect : error := errorString "connect: no smart card".
Definition errWait : error := errorString "wait: reader unavailable".
Definition errInvalid : error := errorString "invalid handle".
Definition errSelect : error := errorString "selector: rejected".

(** As [healthy], but no card can be connected. *)
Definition no_connect : Script := {|
  on_establish := on_establish healthy;
  on_list := on_list healthy;
  on_valid := on_valid healthy;
  on_wait := on_wait healthy;
  on_connect := fun _ _ => inr errConnect;
  on_disconnect := on_disconnect healthy;
  on_cancel := on_cancel healthy;
  on_release := on_release healthy;
  on_done := on_done healthy;
|}.

(** As [healthy], but the wait call fails. *)
Definition wait_fails : Script := {|
  on_establish := on_establish healthy;
  on_list := on_list healthy;
  on_valid := on_valid healthy;
  on_wait := fun _ => (Some errWait, fun _ => 0);
  on_connect := on_connect healthy;
  on_disconnect := on_disconnect healthy;
  on_cancel := on_cancel healthy;
  on_release := on_release healthy;
  on_done := on_done healthy;
|}.

(** As [healthy], but the session is invalid. *)
Definition invalid_session : Script := {|
  on_establish := on_establish healthy;
  on_list := on_list healthy;
  on_valid := fun _ => Some errInvalid;
  on_wait := on_wait healthy;
  on_connect := on_connect healthy;
  on_disconnect := on_disconnect healthy;
  on_cancel := on_cancel healthy;
  on_release := on_release healthy;
  on_done := on_done healthy;
|}.

(** As [healthy], but the session is valid at the first check only. *)
Definition goes_invalid : Script := {|
  on_establish := on_establish healthy;
  on_list := on_list healthy;
  on_valid := fun t => match t with O => None | _ => Some errInvalid end;
  on_wait := on_wait healthy;
  on_connect := on_connect healthy;
  on_disconnect := on_disconnect healthy;
  on_cancel := on_cancel healthy;
  on_release := on_release healthy;
  on_done := on_done healthy;
|}.

(** A machine at clock 0 with an empty trace. *)
Definition boot (sc : Script) (s : SDK) : @Machine (scripted sc) :=
  @mkMachine (scripted sc) s 0%nat [].

(** The SDK after a successful [init] on readers R0 and R1, with a logger. *)
Definition twoReaders : SDK :=
  mkSDK None true false None (Some (pcsc.mkHContext 1))
        [Reader.mk 1 "R0" false; Reader.mk 2 "R1" false].

(** Selection policies. *)
Definition select_none : ReaderSelectFunc := fun _ => ([], None).
Definition select_second : ReaderSelectFunc :=
  fun rs => (Reader.set_Use true <$> drop 1 rs, None).
Definition select_failing : ReaderSelectFunc :=
  fun rs => (take 1 rs, Some errSelect).

(** The entry of reader R0 with a card reported present. *)
Definition presentR0 : pcsc.ReaderState := pcsc.mkReaderState "R0" 0 32.

(** ** Vocabulary of the further properties *)

Section Footprints.

Context {N : pcsc.Native}.

Definition is_log (e : event) : bool :=
  match e with EvLog _ _ _ => true | _ => false end.
Definition is_cancel (e : event) : bool :=
  match e with EvCancel => true | _ => false end.
Definition is_release (e : event) : bool :=
  match e with EvRelease => true | _ => false end.

(** A log record carries the fixed tag in front of its message; other
    events are not concerned. *)
Definition tagged (e : event) : Prop :=
  match e with
  | EvLog _ msg _ => String.prefix logPrefix msg = true
  | _ => True
  end.

(** What SDK.error adds to the trace. *)
Definition logged_error (s : SDK) (err : option error) : list event :=
  match err with
  | Some e => logged s LevelError (error_Error e) []
  | None => []
  end.

(** The context of the machine is done. *)
Definition ctx_is_done (m : Machine) : bool :=
  bool_decide (is_Some (cause (sdk m))) || pcsc.parentDone (world m).

(** [c] started in a machine whose SDK fields satisfy [I] keeps [I] and
    adds to the trace only events that satisfy [P]. *)
Definition keeps (I : SDK -> Prop) (P : event -> Prop) {A} (c : M A) : Prop :=
  forall m, I (sdk m) ->
            I (sdk (exec c m)) /\
            exists evs, trace (exec c m) = trace m ++ evs /\ Forall P evs.

(** [I] survives every assignment the methods make to a field: the cause
    of cancellation, the inventory, the session handle, the raising of the
    disposal flag, and the registration of a policy where none is set. *)
Definition stable (I : SDK -> Prop) : Prop :=
  forall s, I s ->
    (forall v, I (set_cause v s)) /\
    (forall v, I (set_readers v s)) /\
    (forall v, I (set_hctx v s)) /\
    I (set_disposed true s) /\
    (readerSelect s = None -> forall v, I (set_readerSelect v s)).


(** The debug record of [init] for the reader discovered at index [i]. *)
Definition found_record (s : SDK) (i : nat) (readerName : string)
    : list event :=
  logged s LevelDebug "found"
    [AttrGroup "reader" [AttrInt "id" (Z.of_nat i + 1);
                         AttrString "name" readerName]].

End Footprints.

Definition errCancel : error := errorString "cancel: no pending call".

(** As [healthy], but the parent context is cancelled from the start. *)
Definition parent_cancelled : Script := {|
  on_establish := on_establish healthy;
  on_list := on_list healthy;
  on_valid := on_valid healthy;
  on_wait := on_wait healthy;
  on_connect := on_connect healthy;
  on_disconnect := on_disconnect healthy;
  on_cancel := on_cancel healthy;
  on_release := on_release healthy;
  on_done := fun _ => true;
|}.

(** As [healthy], but cancelling pending calls fails. *)
Definition cancel_fails : Script := {|
  on_establish := on_establish healthy;
  on_list := on_list healthy;
  on_valid := on_valid healthy;
  on_wait := on_wait healthy;
  on_connect := on_connect healthy;
  on_disconnect := on_disconnect healthy;
  on_cancel := fun _ => Some errCancel;
  on_release := on_release healthy;
  on_done := on_done healthy;
|}.

(** As [healthy], but the resource manager cannot be reached. *)
Definition unreachable : Script := {|
  on_establish := fun _ => (None, Some errInvalid);
  on_list := on_list healthy;
  on_valid := on_valid healthy;
  on_wait := on_wait healthy;
  on_connect := on_connect healthy;
  on_disconnect := on_disconnect healthy;
  on_cancel := on_cancel healthy;
  on_release := on_release healthy;
  on_done := on_done healthy;
|}.


(** ** Reasoning rules *)

Section Rules.

Context {N : pcsc.Native}.

Lemma exec_bind {A B} (c : M A) (k : A -> M B) (m : Machine) :
  exec (bind c k) m = exec (k (eval c m)) (exec c m).
Proof. unfold exec, eval, bind. destruct (c m); reflexivity. Qed.

Lemma eval_bind {A B} (c : M A) (k : A -> M B) (m : Machine) :
  eval (bind c k) m = eval (k (eval c m)) (exec c m).
Proof. unfold exec, eval, bind. destruct (c m); reflexivity. Qed.

Lemma run_pair {A} (c : M A) (m : Machine) : c m = (eval c m, exec c m).
Proof. unfold exec, eval. destruct (c m); reflexivity. Qed.

Lemma exec_gets {A} (f : SDK -> A) (m : Machine) : exec (gets f) m = m.
Proof. reflexivity. Qed.

Lemma eval_gets {A} (f : SDK -> A) (m : Machine) : eval (gets f) m = f (sdk m).
Proof. reflexivity. Qed.

Lemma exec_modify (f : SDK -> SDK) (m : Machine) :
  exec (modify f) m = mkMachine (f (sdk m)) (world m) (trace m).
Proof. reflexivity. Qed.

Lemma eval_native {A} (call : pcsc.World -> A * pcsc.World) (ev : A -> event)
    (m : Machine) :
  eval (native call ev) m = fst (call (world m)).
Proof. unfold eval, native. by destruct (call (world m)). Qed.

Lemma exec_native {A} (call : pcsc.World -> A * pcsc.World) (ev : A -> event)
    (m : Machine) :
  exec (native call ev) m =
  mkMachine (sdk m) (snd (call (world m)))
            (trace m ++ [ev (fst (call (world m)))]).
Proof. unfold exec, native. by destruct (call (world m)). Qed.

Lemma exec_Log level msg args (m : Machine) :
  exec (Log level msg args) m =
  mkMachine (sdk m) (world m) (trace m ++ logged (sdk m) level msg args).
Proof.
  unfold Log, logged. rewrite exec_bind, eval_gets, exec_gets.
  destruct m as [s w t]; destruct (logger s) eqn:E; cbn; rewrite E; cbn.
  - reflexivity.
  - by rewrite app_nil_r.
Qed.

Lemma Log_run level msg args (m : Machine) :
  Log level msg args m =
  (tt, mkMachine (sdk m) (world m) (trace m ++ logged (sdk m) level msg args)).
Proof.
  rewrite (run_pair (Log level msg args) m), exec_Log.
  by destruct (eval _ m).
Qed.

Lemma native_eq {A} (call : pcsc.World -> A * pcsc.World) (ev : A -> event)
    (m : Machine) :
  native call ev m =
  (fst (call (world m)),
   mkMachine (sdk m) (snd (call (world m)))
     (trace m ++ [ev (fst (call (world m)))])).
Proof. unfold native. by destruct (call (world m)). Qed.

Lemma native_run {A} (call : pcsc.World -> A * pcsc.World) (ev : A -> event)
    (m : Machine) (a : A) (w : pcsc.World) :
  call (world m) = (a, w) ->
  native call ev m = (a, mkMachine (sdk m) w (trace m ++ [ev a])).
Proof. intros H. unfold native. by rewrite H. Qed.

Lemma count_app (p : event -> bool) (t1 t2 : list event) :
  count p (t1 ++ t2) = (count p t1 + count p t2)%nat.
Proof. unfold count. by rewrite List.filter_app, length_app. Qed.

Lemma count_logged (p : event -> bool) (s : SDK) level msg args :
  (forall l t a, p (EvLog l t a) = false) ->
  count p (logged s level msg args) = 0%nat.
Proof. intros Hp. unfold logged, count. destruct (logger s); cbn; by rewrite ?Hp. Qed.

Section FrameRules.

Variable S : SDK -> SDK -> Prop.
Variable P : event -> Prop.
Hypothesis S_refl : forall s, S s s.
Hypothesis S_trans : forall a b c, S a b -> S b c -> S a c.

Lemma frame_ret {A} (a : A) : frame S P (ret a).
Proof. intros m; split; [apply S_refl|]. exists []. by rewrite app_nil_r. Qed.

Lemma frame_bind {A B} (c : M A) (k : A -> M B) :
  frame S P c -> (forall a, frame S P (k a)) -> frame S P (bind c k).
Proof.
  intros Hc Hk m. rewrite exec_bind.
  destruct (Hc m) as [Hs (evs & Ht & Hp)].
  destruct (Hk (eval c m) (exec c m)) as [Hs' (evs' & Ht' & Hp')].
  split; [eauto|].
  exists (evs ++ evs'). rewrite Ht', Ht, app_assoc.
  split; [done|]. by apply Forall_app.
Qed.

Lemma frame_gets {A} (f : SDK -> A) : frame S P (gets f).
Proof. intros m; split; [apply S_refl|]. exists []. by rewrite app_nil_r. Qed.

Lemma frame_ctx_Done : frame S P ctx_Done.
Proof. intros m; split; [apply S_refl|]. exists []. by rewrite app_nil_r. Qed.

Lemma frame_emit (e : event) : P e -> frame S P (emit e).
Proof.
  intros He m; split; [apply S_refl|]. exists [e]. split; [done|].
  by constructor.
Qed.

Lemma frame_native {A} (call : pcsc.World -> A * pcsc.World) (ev : A -> event) :
  (forall a, P (ev a)) -> frame S P (native call ev).
Proof.
  intros He m. unfold exec, native. destruct (call (world m)) as [a w]. cbn.
  split; [apply S_refl|]. exists [ev a]. split; [done|]. by constructor.
Qed.

Lemma frame_modify (f : SDK -> SDK) :
  (forall s, S s (f s)) -> frame S P (modify f).
Proof. intros Hf m; split; [apply Hf|]. exists []. by rewrite app_nil_r. Qed.

Lemma frame_Log level msg args :
  (forall l s a, P (EvLog l s a)) -> frame S P (Log level msg args).
Proof.
  intros Hl. apply frame_bind; [apply frame_gets|].
  intros []; cbn; [by apply frame_emit|apply frame_ret].
Qed.

Lemma frame_weaken {A} (S' : SDK -> SDK -> Prop) (P' : event -> Prop) (c : M A) :
  (forall s s', S s s' -> S' s s') -> (forall e, P e -> P' e) ->
  frame S P c -> frame S' P' c.
Proof.
  intros HS HP Hc m. destruct (Hc m) as [Hs (evs & Ht & Hp)].
  split; [auto|]. exists evs. split; [done|].
  eapply Forall_impl; eauto.
Qed.

End FrameRules.

End Rules.

(** Unfolds the plumbing of a method applied to a machine. *)
Ltac mrun :=
  unfold bind, gets, modify, emit, ret, debug, warn, info;
  cbn [sdk world trace fst snd].

(** Side conditions of the rules: the relation on the SDK fields is a
    preorder, the event is of the allowed kind. *)
Ltac frame_side :=
  solve [ intros; cbn in *; unfold same_session in *; cbn in *;
          first [ done | congruence | solve [eauto] | intuition congruence ] ].

Ltac frame_step :=
  first
    [ apply frame_ret; frame_side
    | apply frame_gets; frame_side
    | apply frame_ctx_Done; frame_side
    | apply frame_emit; frame_side
    | apply frame_native; frame_side
    | apply frame_modify; frame_side
    | apply frame_Log; frame_side
    | apply frame_bind; [frame_side | | intros ?]
    | match goal with
      | |- frame _ _ (match ?x with _ => _ end) => destruct x
      end ].

Ltac frame_auto := repeat (frame_step; cbn [fst snd]).

Section Frames.

Context {N : pcsc.Native}.

Lemma frame_handleCard (readerName : string) :
  frame eq (fun e => card_event e = true) (handleCard readerName).
Proof.
  unfold handleCard, hctx_Connect, card_Disconnect, log_error, debug.
  frame_auto.
Qed.

Lemma frame_range_states (idxs : list nat) (states : list pcsc.ReaderState) :
  frame eq (fun e => card_event e = true) (range_states idxs states).
Proof.
  revert states. induction idxs as [|i rest IH]; intros states; cbn.
  - frame_auto.
  - destruct (_ !! i) as [st|]; [|frame_auto].
    destruct (present _); unfold debug, hctx_IsValid, log_error;
      frame_auto; try apply frame_handleCard; apply IH.
Qed.

Lemma frame_runner (fuel : nat) (err : option error)
    (states : list pcsc.ReaderState) :
  frame eq (fun e => loop_event e = true) (runner fuel err states).
Proof.
  revert err states. induction fuel as [|fuel IH]; intros err states; cbn.
  - frame_auto.
  - unfold hctx_IsValid, hctx_GetStatusChange, log_error.
    frame_auto; try apply IH.
    eapply frame_weaken; [| |apply frame_range_states]; [done|].
    intros e He. unfold loop_event. by rewrite He.
Qed.

Lemma frame_stop (err : error) :
  frame same_session (fun e => run_event e = true) (stop err).
Proof. unfold stop. frame_auto. Qed.

Lemma frame_select_readers :
  frame same_session (fun e => run_event e = true) select_readers.
Proof. unfold select_readers. frame_auto. Qed.

Lemma frame_Run (fuel : nat) :
  frame same_session (fun e => run_event e = true) (Run fuel).
Proof.
  unfold Run, hctx_IsValid, log_error, wg_Wait, debug.
  frame_auto; try apply frame_stop; try apply frame_select_readers.
  eapply frame_weaken; [| |apply frame_runner].
  - intros s s' ->. by unfold same_session.
  - intros e He. unfold run_event. rewrite He. by destruct e.
Qed.

Lemma frame_init_range (i : nat) (readerNames : list string) :
  frame (fun s s' => disposed s' = disposed s) (fun _ => True)
        (init_range i readerNames).
Proof.
  revert i. induction readerNames as [|n rest IH]; intros i; cbn.
  - frame_auto.
  - unfold debug. frame_auto. apply IH.
Qed.

Lemma frame_init :
  frame (fun s s' => disposed s' = disposed s) (fun _ => True) init.
Proof.
  unfold init, hctx_ListReaders, debug.
  frame_auto. apply frame_init_range.
Qed.

Lemma frame_SelectReader (fn : option ReaderSelectFunc) :
  frame (fun s s' => disposed s' = disposed s) (fun _ => True)
        (SelectReader fn).
Proof. unfold SelectReader, warn. frame_auto. Qed.

Lemma frame_dispose :
  frame (fun s s' => disposed s' = true) (fun _ => True) dispose.
Proof.
  intros m. split.
  - unfold dispose, Disposed. rewrite exec_bind, eval_gets, exec_gets.
    destruct (disposed (sdk m)) eqn:Hd.
    + unfold warn. by rewrite exec_Log.
    + rewrite exec_bind, exec_modify.
      match goal with
      | |- disposed (sdk (exec ?c ?m')) = true =>
          assert (H : frame (fun s s' => disposed s' = disposed s)
                            (fun _ => True) c);
          [|destruct (H m') as [-> _]; reflexivity]
      end.
      unfold debug, hctx_Cancel, hctx_Release, log_error. frame_auto.
  - assert (H : frame (fun _ _ => True) (fun _ => True) dispose).
    { unfold dispose, Disposed, warn, debug, hctx_Cancel, hctx_Release,
        log_error. frame_auto. }
    destruct (H m) as [_ (evs & Ht & _)].
    exists evs. split; [done|]. by apply Forall_true.
Qed.

End Frames.

(** ** Disposal *)

Section Disposal.

Context {N : pcsc.Native}.

Lemma do_call_keeps_disposed (c : call) (m : Machine) :
  is_dispose c = false ->
  disposed (sdk (do_call c m)) = disposed (sdk m).
Proof.
  destruct c; cbn; intros Hc; try discriminate.
  - by destruct (frame_init m) as [-> _].
  - by destruct (frame_Run fuel m) as [(_ & -> & _) _].
  - by destruct (frame_SelectReader fn m) as [-> _].
  - reflexivity.
Qed.

Lemma do_call_disposed_mono (c : call) (m : Machine) :
  disposed (sdk m) = true -> disposed (sdk (do_call c m)) = true.
Proof.
  intros Hd. destruct (is_dispose c) eqn:Hc.
  - destruct c; try discriminate. cbn. by destruct (frame_dispose m) as [-> _].
  - by rewrite do_call_keeps_disposed.
Qed.

Lemma do_calls_keeps_disposed (cs : list call) (m : Machine) :
  forallb (fun c => negb (is_dispose c)) cs = true ->
  disposed (sdk (do_calls cs m)) = disposed (sdk m).
Proof.
  revert m. induction cs as [|c cs IH]; intros m; cbn; [done|].
  intros [Hc Hcs]%andb_prop. unfold do_calls in *. rewrite IH by done.
  apply do_call_keeps_disposed. by destruct (is_dispose c).
Qed.

Lemma do_calls_disposed_mono (cs : list call) (m : Machine) :
  disposed (sdk m) = true -> disposed (sdk (do_calls cs m)) = true.
Proof.
  revert m. induction cs as [|c cs IH]; intros m Hd; cbn; [done|].
  apply IH. by apply do_call_disposed_mono.
Qed.

Lemma dispose_again (m : Machine) :
  disposed (sdk m) = true -> dispose m = warn "sdk already disposed" [] m.
Proof.
  intros Hd. unfold dispose, Disposed, bind, gets. by rewrite Hd.
Qed.

(** C2: the disposal flag goes from false to true exactly once.  Starting
    with the flag down, Disposed() answers false after any calls made before
    the first dispose(); it answers true right after the first dispose() and
    after any further calls whatever; and a dispose() made then is the
    warning call and nothing else: the SDK fields and the outside world are
    as before, the trace grows by the warning record alone (when a logger is
    attached), so no cancel or release is issued again. *)
Theorem dispose_once (m : Machine) (before after : list call) :
  disposed (sdk m) = false ->
  forallb (fun c => negb (is_dispose c)) before = true ->
  let m0 := do_calls before m in
  let m1 := exec dispose m0 in
  let m2 := do_calls after m1 in
  eval Disposed m0 = false /\
  eval Disposed m1 = true /\
  eval Disposed m2 = true /\
  dispose m2 = warn "sdk already disposed" [] m2 /\
  exec dispose m2 =
    mkMachine (sdk m2) (world m2)
      (trace m2 ++ if logger (sdk m2)
                   then [EvLog LevelWarn "nfc: sdk already disposed" []]
                   else []) /\
  count is_teardown (trace (exec dispose m2)) = count is_teardown (trace m2).
Proof.
  intros Hd Hb m0 m1 m2.
  assert (H0 : disposed (sdk m0) = false)
    by (subst m0; by rewrite do_calls_keeps_disposed).
  assert (H1 : disposed (sdk m1) = true)
    by (subst m1; by destruct (frame_dispose m0) as [-> _]).
  assert (H2 : disposed (sdk m2) = true)
    by (subst m2; by apply do_calls_disposed_mono).
  assert (H3 : exec dispose m2 =
    mkMachine (sdk m2) (world m2)
      (trace m2 ++ if logger (sdk m2)
                   then [EvLog LevelWarn "nfc: sdk already disposed" []]
                   else [])).
  { unfold exec at 1. rewrite dispose_again by done.
    unfold warn. fold (exec (Log LevelWarn "sdk already disposed" []) m2).
    by rewrite exec_Log. }
  split_and!; try done.
  - by apply dispose_again.
  - rewrite H3. cbn [trace]. rewrite count_app.
    destruct (logger (sdk m2)); cbn; lia.
Qed.

End Disposal.

(** ** Registration of the selection policy *)

Section Registration.

Context {N : pcsc.Native}.

(** C3 (amended): when no policy is registered yet and the first of two
    calls of SelectReader passes a function that is not nil, that function
    is installed, and the second call is the warning call and nothing else:
    the installed policy stays, the SDK fields and the outside world are as
    the first call left them, and the trace grows by the warning record
    alone (when a logger is attached). *)
Theorem SelectReader_second_ignored (m : Machine) (f : ReaderSelectFunc)
    (fn2 : option ReaderSelectFunc) :
  readerSelect (sdk m) = None ->
  let m1 := exec (SelectReader (Some f)) m in
  let m2 := exec (SelectReader fn2) m1 in
  readerSelect (sdk m1) = Some f /\
  readerSelect (sdk m2) = Some f /\
  SelectReader fn2 m1 =
    warn "reader select callback can only be attached once" [] m1 /\
  m2 = mkMachine (sdk m1) (world m1)
         (trace m1 ++
          if logger (sdk m1)
          then [EvLog LevelWarn
                  "nfc: reader select callback can only be attached once" []]
          else []).
Proof.
  intros Hm m1 m2.
  assert (H1 : readerSelect (sdk m1) = Some f).
  { subst m1. unfold SelectReader. rewrite exec_bind, eval_gets, exec_gets, Hm.
    by rewrite exec_modify. }
  assert (H2 : SelectReader fn2 m1 =
    warn "reader select callback can only be attached once" [] m1).
  { unfold SelectReader, bind, gets. by rewrite H1. }
  assert (H3 : m2 = exec (warn "reader select callback can only be attached once" []) m1).
  { subst m2. unfold exec. by rewrite H2. }
  unfold warn in H3. rewrite exec_Log in H3.
  split_and!; try done. by rewrite H3.
Qed.

End Registration.

(** ** Initialisation *)

Section Initialisation.

Context {N : pcsc.Native}.

Lemma init_range_spec (readerNames : list string) (i : nat) (m : Machine) :
  sdk (exec (init_range i readerNames) m) =
    set_readers
      (readers (sdk m) ++
       imap (fun j readerName =>
               Reader.mk (Z.of_nat (i + j) + 1) readerName false)
            readerNames)
      (sdk m) /\
  world (exec (init_range i readerNames) m) = world m.
Proof.
  revert i m. induction readerNames as [|n rest IH]; intros i m.
  - cbn. rewrite app_nil_r. by destruct m as [[] ? ?].
  - cbn [init_range]. unfold debug.
    rewrite exec_bind, exec_Log, exec_bind, exec_modify.
    match goal with
    | |- context [exec (init_range (S i) rest) ?m'] =>
        destruct (IH (S i) m') as [Hs Hw]
    end.
    cbn in Hs, Hw |- *. rewrite Hs, Hw. split; [|done].
    unfold set_readers; cbn. f_equal.
    rewrite <- app_assoc. cbn. rewrite Nat.add_0_r. do 2 f_equal.
    apply imap_ext. intros j x _. cbn. do 2 f_equal. lia.
Qed.

(** C7: init() establishes the session and lists the reader names.  With
    the answers of the two native calls named, it stores the handle it was
    given; it fails with the error of establish, else with the error of the
    listing, else with an error of its own when no name was returned; it
    succeeds otherwise; and the inventory is extended exactly on success,
    by one reader for each name, in order, with ids 1, 2, 3, ... and use
    false (so an SDK that starts with an empty inventory ends with exactly
    these readers). *)
Theorem init_populates (m : Machine)
    (h : option pcsc.HContext) (e1 e2 : option error)
    (names : list string) (w1 w2 : pcsc.World) :
  pcsc.SCardEstablishContext pcsc.ScardScopeSystem (world m) = ((h, e1), w1) ->
  pcsc.ListReaders h w1 = ((names, e2), w2) ->
  let result :=
    match e1, e2, names with
    | Some e, _, _ => Some e
    | None, Some e, _ => Some e
    | None, None, [] =>
        Some (Errorf_w pcsc.Error ": no readers returned by ListReaders")
    | None, None, _ :: _ => None
    end in
  eval init m = result /\
  hctx (sdk (exec init m)) = h /\
  readers (sdk (exec init m)) =
    readers (sdk m) ++ (if result is None then discovered names else []).
Proof.
  intros He Hl result. unfold eval, exec, init, hctx_ListReaders. mrun.
  rewrite (native_run _ _ m _ _ He). mrun.
  destruct e1 as [e|]; [by subst result; cbn; rewrite app_nil_r|].
  rewrite Log_run. mrun. cbn [set_hctx hctx].
  erewrite native_run by (cbn [world]; exact Hl). mrun.
  destruct e2 as [e|]; [by subst result; cbn; rewrite app_nil_r|].
  destruct names as [|n rest].
  { rewrite bool_decide_true by done. subst result; cbn. by rewrite app_nil_r. }
  rewrite bool_decide_false by (cbn; lia).
  match goal with
  | |- context [init_range 0 ?l ?m'] =>
      rewrite (run_pair (init_range 0 l) m');
      destruct (init_range_spec l 0 m') as [Hs _]
  end.
  cbn [fst snd]. rewrite Hs. by subst result.
Qed.

End Initialisation.

(** ** The card session handler *)

Section Handler.

Context {N : pcsc.Native}.

Lemma handleCard_run (m : Machine) (readerName : string)
    (r : pcsc.Card + error) (w1 : pcsc.World) :
  pcsc.Connect (hctx (sdk m)) readerName
    pcsc.ScardShareExclusive pcsc.ScardProtocolAny (world m) = (r, w1) ->
  handleCard readerName m =
  (tt, mkMachine (sdk m) (snd (after_connect (sdk m) r w1))
         (trace m ++
          EvConnect readerName pcsc.ScardShareExclusive pcsc.ScardProtocolAny ::
          fst (after_connect (sdk m) r w1))).
Proof.
  intros Hc. unfold handleCard, hctx_Connect, card_Disconnect, log_error. mrun.
  rewrite (native_run _ _ m _ _ Hc).
  destruct r as [card|err]; cbn [after_connect fst snd].
  - rewrite Log_run. mrun.
    destruct (pcsc.Disconnect card pcsc.ScardResetCard w1) as [d w2] eqn:Hd.
    erewrite native_run by (cbn [world]; exact Hd). cbn [fst snd].
    destruct d as [e|]; rewrite Log_run; cbn [sdk world trace];
      unfold logged; by rewrite <- !app_assoc.
  - rewrite Log_run. cbn [sdk world trace]. unfold logged.
    by rewrite <- !app_assoc.
Qed.

(** C9: one invocation of the card session handler from the loop.  For
    the entry [i] of the tracked readers, with the present bit set in its
    event state and the session still valid, the handler is entered; it
    issues exactly one connect (exclusive, any protocol).  When connect
    fails the error is logged and nothing else is done; when it succeeds
    the card is disconnected at once with the reset disposition, exactly
    once, and a failure of that is logged.  Whatever the two calls answer,
    the SDK fields are untouched and the inner loop goes on with the
    remaining readers, from where the next wait call is reached. *)
Theorem handleCard_recoverable (m : Machine) (i : nat) (rest : list nat)
    (states : list pcsc.ReaderState) (st : pcsc.ReaderState)
    (w0 w1 : pcsc.World) (r : pcsc.Card + error) :
  states !! i = Some st ->
  present (pcsc.EventState st) = true ->
  pcsc.IsValid (hctx (sdk m)) (world m) = (None, w0) ->
  pcsc.Connect (hctx (sdk m)) (pcsc.Reader st)
    pcsc.ScardShareExclusive pcsc.ScardProtocolAny w0 = (r, w1) ->
  let m0 :=
    mkMachine (sdk m) w0
      (trace m ++
       logged (sdk m) LevelDebug "card is present in the reader." [] ++
       [EvIsValid]) in
  let m1 := exec (handleCard (pcsc.Reader st)) m0 in
  sdk m1 = sdk m /\
  world m1 = snd (after_connect (sdk m) r w1) /\
  trace m1 =
    trace m0 ++
    EvConnect (pcsc.Reader st) pcsc.ScardShareExclusive pcsc.ScardProtocolAny ::
    fst (after_connect (sdk m) r w1) /\
  count is_connect
    (EvConnect (pcsc.Reader st) pcsc.ScardShareExclusive pcsc.ScardProtocolAny ::
     fst (after_connect (sdk m) r w1)) = 1%nat /\
  count is_disconnect (fst (after_connect (sdk m) r w1)) =
    (if r is inl _ then 1 else 0)%nat /\
  range_states (i :: rest) states m =
    range_states rest (alter arm i states) m1.
Proof.
  intros Hi Hp Hv Hc m0 m1.
  assert (Hrun : handleCard (pcsc.Reader st) m0 =
    (tt, mkMachine (sdk m) (snd (after_connect (sdk m) r w1))
           (trace m0 ++
            EvConnect (pcsc.Reader st) pcsc.ScardShareExclusive
              pcsc.ScardProtocolAny ::
            fst (after_connect (sdk m) r w1)))).
  { by rewrite (handleCard_run m0 _ r w1) by exact Hc. }
  assert (Hm1 : m1 = mkMachine (sdk m) (snd (after_connect (sdk m) r w1))
           (trace m0 ++
            EvConnect (pcsc.Reader st) pcsc.ScardShareExclusive
              pcsc.ScardProtocolAny ::
            fst (after_connect (sdk m) r w1))).
  { subst m1. unfold exec. by rewrite Hrun. }
  split_and!; try by rewrite Hm1.
  - change (EvConnect ?a ?b ?c :: ?l) with ([EvConnect a b c] ++ l).
    rewrite count_app. change (count is_connect [_]) with 1%nat.
    destruct r as [card|err]; cbn [after_connect fst].
    + rewrite !count_app. destruct (pcsc.Disconnect _ _ _) as [[e|] ?];
        cbn [fst]; by rewrite !count_logged.
    + by rewrite count_logged.
  - destruct r as [card|err]; cbn [after_connect fst].
    + rewrite !count_app. destruct (pcsc.Disconnect _ _ _) as [[e|] ?];
        cbn [fst]; by rewrite !count_logged.
    + by rewrite count_logged.
  - cbn [range_states]. rewrite list_lookup_alter_eq, Hi. cbn [fmap option_fmap option_map].
    cbn [arm pcsc.set_CurrentState pcsc.EventState pcsc.Reader]. rewrite Hp.
    unfold hctx_IsValid, log_error. mrun. rewrite Log_run. mrun.
    erewrite native_run by (cbn [world]; exact Hv). cbn [fst snd].
    cbn [sdk world trace]. rewrite <- app_assoc.
    clear Hrun Hm1. subst m1 m0. unfold exec, logged.
    by destruct (handleCard _ _).
Qed.

End Handler.

(** ** Run, before the loop *)

Section Opening.

Context {N : pcsc.Native}.

Lemma stop_run (err : error) (m : Machine) :
  stop err m =
  (tt, mkMachine (cancelled err (sdk m) (world m)) (world m)
         (trace m ++ [EvStop err])).
Proof.
  unfold stop, ctx_Done, cancelled. mrun.
  by destruct (bool_decide _ || _).
Qed.

(** Run when one of the opening checks fails. *)
Lemma Run_bad_opening (fuel : nat) (m : Machine)
    (v : option error) (w0 : pcsc.World) :
  pcsc.IsValid (hctx (sdk m)) (world m) = (v, w0) ->
  is_Some v \/ readers (sdk m) = [] ->
  let err :=
    match v, readers (sdk m) with
    | Some e, _ :: _ => e
    | Some e, [] => joinError [e; errNoReadersPresent]
    | None, _ => joinError [errNoReadersPresent]
    end in
  Run fuel m =
    (Some (Some err),
     mkMachine (cancelled err (sdk m) w0) w0
       (trace m ++ [EvIsValid] ++
        match v with
        | Some e => logged (sdk m) LevelError (error_Error e) []
        | None => []
        end ++
        [EvStop err; EvWgWait])).
Proof.
  intros Hv Hbad err.
  unfold Run, hctx_IsValid, log_error. mrun.
  rewrite (native_run _ _ m _ _ Hv).
  destruct v as [e|].
  - rewrite Log_run. mrun.
    destruct (readers (sdk m)) as [|r0 rs] eqn:Hrs; subst err.
    + rewrite bool_decide_true by done. cbn [errors_Join omap list_omap].
      fold errNoReadersPresent.
      rewrite stop_run. unfold wg_Wait. mrun. unfold logged.
      by rewrite <- !app_assoc.
    + rewrite bool_decide_false by (cbn; lia).
      rewrite stop_run. unfold wg_Wait. mrun. unfold logged.
      by rewrite <- !app_assoc.
  - destruct Hbad as [[? [=]]|Hrs]. subst err. mrun. rewrite Hrs.
    rewrite bool_decide_true by done. cbn [errors_Join omap list_omap].
    fold errNoReadersPresent.
    rewrite stop_run. unfold wg_Wait. mrun.
    by rewrite <- !app_assoc.
Qed.

(** C6: the opening checks of Run.  When the session is invalid or the
    inventory is empty, Run returns, whatever the fuel, without a single
    wait call: the accumulated error is the error of the session alone, or
    the join of it with the no-readers error when the inventory is empty
    too, or the join holding the no-readers error alone; Run logs the
    session error if there is one, hands the accumulated error to the
    cancellation function, waits on the wait group and returns that
    error. *)
Theorem Run_opening_checks (fuel : nat) (m : Machine)
    (v : option error) (w0 : pcsc.World) :
  pcsc.IsValid (hctx (sdk m)) (world m) = (v, w0) ->
  is_Some v \/ readers (sdk m) = [] ->
  let err :=
    match v, readers (sdk m) with
    | Some e, _ :: _ => e
    | Some e, [] => joinError [e; errNoReadersPresent]
    | None, _ => joinError [errNoReadersPresent]
    end in
  Run fuel m =
    (Some (Some err),
     mkMachine (cancelled err (sdk m) w0) w0
       (trace m ++ [EvIsValid] ++
        match v with
        | Some e => logged (sdk m) LevelError (error_Error e) []
        | None => []
        end ++
        [EvStop err; EvWgWait])) /\
  wait_calls (trace (exec (Run fuel) m)) = wait_calls (trace m).
Proof.
  intros Hv Hbad err.
  pose proof (Run_bad_opening fuel m v w0 Hv Hbad) as Hrun.
  split; [exact Hrun|].
  unfold exec. rewrite Hrun. cbn [snd trace]. unfold wait_calls.
  rewrite !omap_app. destruct v; unfold logged; [destruct (logger _)|];
    cbn; by rewrite ?app_nil_r.
Qed.

(** Run once the opening checks have passed: the selection step, the
    check of the tracked readers, the loop and the way out of it. *)
Lemma Run_valid (fuel : nat) (m : Machine) (w0 : pcsc.World) :
  pcsc.IsValid (hctx (sdk m)) (world m) = (None, w0) ->
  readers (sdk m) <> [] ->
  Run fuel m =
    let (err, m1) :=
      select_readers (mkMachine (sdk m) w0 (trace m ++ [EvIsValid])) in
    match err with
    | Some e =>
        (Some (Some e),
         mkMachine (cancelled e (sdk m1) (world m1)) (world m1)
           (trace m1 ++ [EvStop e; EvWgWait]))
    | None =>
        if bool_decide (length (build_states (readers (sdk m1))) = 0%nat)
        then
          (Some (Some errNoReadersEnabled),
           mkMachine (cancelled errNoReadersEnabled (sdk m1) (world m1))
             (world m1)
             (trace m1 ++ [EvStop errNoReadersEnabled; EvWgWait]))
        else
          let (r, m2) := runner fuel None (build_states (readers (sdk m1))) m1 in
          match r with
          | None => (None, m2)
          | Some err =>
              (Some err,
               mkMachine (sdk m2) (world m2)
                 (trace m2 ++ [EvWgWait] ++
                  logged (sdk m2) LevelDebug "exiting" []))
          end
    end.
Proof.
  intros Hv Hne. unfold Run, hctx_IsValid. mrun.
  rewrite (native_run _ _ m _ _ Hv). mrun.
  rewrite bool_decide_false by (destruct (readers (sdk m)); [done|cbn; lia]).
  destruct (select_readers _) as [[e|] m1].
  - rewrite stop_run. unfold wg_Wait. mrun. by rewrite <- app_assoc.
  - destruct (bool_decide _).
    + fold errNoReadersEnabled. rewrite stop_run. unfold wg_Wait. mrun.
      by rewrite <- app_assoc.
    + destruct (runner _ _ _ _) as [[err|] m2]; [|done].
      unfold wg_Wait. mrun. rewrite Log_run. mrun. unfold logged.
      by rewrite <- app_assoc.
Qed.

Lemma select_readers_run (m : Machine) :
  select_readers m =
  match readerSelect (sdk m) with
  | Some fn =>
      (snd (fn (readers (sdk m))),
       mkMachine (set_readers (fst (fn (readers (sdk m)))) (sdk m))
         (world m) (trace m))
  | None =>
      (None,
       mkMachine
         (set_readers (alter (Reader.set_Use true) 0%nat (readers (sdk m)))
            (sdk m))
         (world m) (trace m))
  end.
Proof. unfold select_readers. mrun. by destruct (readerSelect (sdk m)). Qed.

(** C10: a failing selection policy.  When the opening checks pass and the
    registered function answers with an error, whatever slice came with the
    error has replaced the inventory when Run returns: the inventory of
    before the call is not put back.  Run hands the error to the
    cancellation function, waits on the wait group and returns it, whatever
    the fuel. *)
Theorem Run_selector_error (fuel : nat) (m : Machine) (w0 : pcsc.World)
    (fn : ReaderSelectFunc) (rs' : list Reader.t) (e : error) :
  pcsc.IsValid (hctx (sdk m)) (world m) = (None, w0) ->
  readers (sdk m) <> [] ->
  readerSelect (sdk m) = Some fn ->
  fn (readers (sdk m)) = (rs', Some e) ->
  Run fuel m =
    (Some (Some e),
     mkMachine (cancelled e (set_readers rs' (sdk m)) w0) w0
       (trace m ++ [EvIsValid; EvStop e; EvWgWait])) /\
  readers (sdk (exec (Run fuel) m)) = rs'.
Proof.
  intros Hv Hne Hsel Hfn.
  assert (Hrun : Run fuel m =
    (Some (Some e),
     mkMachine (cancelled e (set_readers rs' (sdk m)) w0) w0
       (trace m ++ [EvIsValid; EvStop e; EvWgWait]))).
  { rewrite (Run_valid fuel m w0 Hv Hne), select_readers_run.
    cbn [sdk world trace]. rewrite Hsel, Hfn. cbn [fst snd sdk world trace].
    by rewrite <- app_assoc. }
  split; [exact Hrun|].
  unfold exec. rewrite Hrun. cbn [snd sdk].
  unfold cancelled. by destruct (_ || _).
Qed.

Lemma build_states_unused (rs : list Reader.t) :
  Forall (fun r => Reader.Use r = false) rs -> build_states rs = [].
Proof.
  intros H. unfold build_states.
  induction H as [|r rs Hr _ IH]; [done|].
  rewrite filter_cons_False by congruence. exact IH.
Qed.

(** C5: nobody selected.  When the opening checks pass and the selection
    step ends without error leaving no reader in use, Run fails with the
    no-readers-enabled error: it hands that error to the cancellation
    function, waits on the wait group and returns it, whatever the fuel,
    and no wait call is issued. *)
Theorem Run_no_readers_enabled (fuel : nat) (m m1 : Machine) (w0 : pcsc.World) :
  pcsc.IsValid (hctx (sdk m)) (world m) = (None, w0) ->
  readers (sdk m) <> [] ->
  select_readers (mkMachine (sdk m) w0 (trace m ++ [EvIsValid])) = (None, m1) ->
  Forall (fun r => Reader.Use r = false) (readers (sdk m1)) ->
  Run fuel m =
    (Some (Some errNoReadersEnabled),
     mkMachine (cancelled errNoReadersEnabled (sdk m1) w0) w0
       (trace m ++ [EvIsValid; EvStop errNoReadersEnabled; EvWgWait])) /\
  wait_calls (trace (exec (Run fuel) m)) = wait_calls (trace m).
Proof.
  intros Hv Hne Hsel Hunused.
  assert (Hm1 : world m1 = w0 /\ trace m1 = trace m ++ [EvIsValid]).
  { rewrite select_readers_run in Hsel. cbn [sdk world trace] in Hsel.
    destruct (readerSelect (sdk m)); by simplify_eq. }
  destruct Hm1 as [Hw Ht].
  assert (Hrun : Run fuel m =
    (Some (Some errNoReadersEnabled),
     mkMachine (cancelled errNoReadersEnabled (sdk m1) w0) w0
       (trace m ++ [EvIsValid; EvStop errNoReadersEnabled; EvWgWait]))).
  { rewrite (Run_valid fuel m w0 Hv Hne), Hsel.
    rewrite build_states_unused by done.
    rewrite bool_decide_true by done. rewrite Hw, Ht.
    by rewrite <- app_assoc. }
  split; [exact Hrun|].
  unfold exec. rewrite Hrun. cbn [snd trace]. unfold wait_calls.
  rewrite omap_app. cbn. by rewrite app_nil_r.
Qed.

End Opening.

(** ** The runner loop *)

Section Loop.

Context {N : pcsc.Native}.











(** C4: the default selection.  With no policy registered, a session that
    is valid and an inventory whose readers are all out of use (as init
    leaves them), Run puts the first reader in use and no other, and the
    loop leaves the inventory alone: however long Run is followed, the
    inventory is the one of before with use set on the first reader, so
    reader [i] is in use exactly when [i] is 0, and the readers tracked are
    the first reader alone. *)
Theorem Run_default_selection (fuel : nat) (m : Machine) (w0 : pcsc.World)
    (r0 : Reader.t) (rest : list Reader.t) :
  pcsc.IsValid (hctx (sdk m)) (world m) = (None, w0) ->
  readerSelect (sdk m) = None ->
  readers (sdk m) = r0 :: rest ->
  Forall (fun r => Reader.Use r = false) (r0 :: rest) ->
  let rs' := readers (sdk (exec (Run fuel) m)) in
  rs' = Reader.set_Use true r0 :: rest /\
  (forall i r, rs' !! i = Some r -> Reader.Use r = bool_decide (i = 0%nat)) /\
  build_states rs' =
    [pcsc.mkReaderState (Reader.name r0) pcsc.ScardStateUnaware 0].
Proof.
  intros Hv Hsel Hrs Hunused rs'.
  apply Forall_cons in Hunused as [_ Hrest].
  assert (Hb : build_states (Reader.set_Use true r0 :: rest) =
    [pcsc.mkReaderState (Reader.name r0) pcsc.ScardStateUnaware 0]).
  { unfold build_states. rewrite filter_cons_True by done.
    rewrite fmap_cons. f_equal. exact (build_states_unused rest Hrest). }
  assert (Hrs' : rs' = Reader.set_Use true r0 :: rest).
  { subst rs'. unfold exec.
    rewrite (Run_valid fuel m w0 Hv) by (by rewrite Hrs).
    rewrite select_readers_run. cbn [sdk world trace]. rewrite Hsel, Hrs.
    cbn [alter list_alter sdk world trace set_readers readers].
    rewrite Hb. rewrite bool_decide_false by (cbn; lia).
    match goal with
    | |- context [runner fuel None ?sts ?m1] =>
        destruct (frame_runner fuel None sts m1) as [Heq _];
        unfold exec in Heq;
        destruct (runner fuel None sts m1) as [[err|] m2]
    end; cbn [snd sdk] in *; by rewrite <- Heq. }
  split_and!.
  - exact Hrs'.
  - rewrite Hrs'. intros [|i] r Hi; cbn in Hi.
    + by simplify_eq.
    + rewrite bool_decide_false by lia.
      exact (Forall_lookup_1 _ rest i r Hrest Hi).
  - by rewrite Hrs'.
Qed.

Lemma stops_loop (evs : list event) :
  Forall (fun e => loop_event e = true) evs -> stops evs = [].
Proof.
  induction 1 as [|e evs He _ IH]; [done|].
  unfold stops in *. cbn. rewrite IH. by destruct e.
Qed.

(** Once Run has entered the loop it never calls the cancellation
    function, whatever error ends the loop: the context is left as it
    was. *)
Lemma Run_loop_never_signals (fuel : nat) (m m1 : Machine) (w0 : pcsc.World) :
  pcsc.IsValid (hctx (sdk m)) (world m) = (None, w0) ->
  readers (sdk m) <> [] ->
  select_readers (mkMachine (sdk m) w0 (trace m ++ [EvIsValid])) = (None, m1) ->
  build_states (readers (sdk m1)) <> [] ->
  stops (trace (exec (Run fuel) m)) = stops (trace m) /\
  cause (sdk (exec (Run fuel) m)) = cause (sdk m).
Proof.
  intros Hv Hne Hsel Htracked.
  assert (Hm1 : trace m1 = trace m ++ [EvIsValid] /\
                cause (sdk m1) = cause (sdk m)).
  { rewrite select_readers_run in Hsel. cbn [sdk world trace] in Hsel.
    destruct (readerSelect (sdk m)); by simplify_eq. }
  destruct Hm1 as [Ht1 Hc1].
  unfold exec. rewrite (Run_valid fuel m w0 Hv Hne), Hsel.
  rewrite bool_decide_false
    by (destruct (build_states _); [done|cbn; lia]).
  destruct (frame_runner fuel None (build_states (readers (sdk m1))) m1)
    as [Heq (evs & Ht & Hevs)].
  unfold exec in Heq, Ht.
  destruct (runner fuel None _ m1) as [[err|] m2]; cbn [snd sdk trace] in *;
    rewrite <- Heq, Ht, Ht1; unfold stops; rewrite !omap_app;
    fold (stops evs); rewrite (stops_loop evs Hevs);
    unfold logged; [destruct (logger m1.(sdk))|];
    cbn; by rewrite ?app_nil_r.
Qed.

Lemma range_states_no_break (idxs : list nat)
    (states : list pcsc.ReaderState) (m : Machine) :
  (forall h w, fst (pcsc.IsValid h w) = None) ->
  fst (fst (range_states idxs states m)) = None.
Proof.
  intros Hvalid. revert states m.
  induction idxs as [|i rest IH]; intros states m; [done|].
  cbn [range_states].
  destruct (_ !! i) as [st|]; [|done].
  destruct (present (pcsc.EventState st)).
  - unfold hctx_IsValid. mrun. rewrite Log_run. mrun. rewrite native_eq.
    rewrite Hvalid. cbn [fst snd]. destruct (handleCard _ _) as [[] m'].
    apply IH.
  - mrun. rewrite Log_run. apply IH.
Qed.

(** While the session stays valid, the wait call succeeds and nobody
    cancels the context, the loop is never left, whatever connect and
    disconnect answer: failures with a card do not end it. *)
Lemma runner_survives_card_errors (fuel : nat) (err : option error)
    (states : list pcsc.ReaderState) (m : Machine) :
  (forall h w, fst (pcsc.IsValid h w) = None) ->
  (forall h sts t w, fst (fst (pcsc.GetStatusChange h sts t w)) = None) ->
  (forall w, pcsc.parentDone w = false) ->
  cause (sdk m) = None ->
  eval (runner fuel err states) m = None /\
  count is_wait (trace (exec (runner fuel err states) m)) =
    (count is_wait (trace m) + fuel)%nat.
Proof.
  intros Hvalid Hwait Hdone. revert err states m.
  induction fuel as [|fuel IH]; intros err states m Hc.
  { cbn. split; [done|lia]. }
  unfold eval, exec. cbn [runner]. unfold ctx_Done, hctx_IsValid,
    hctx_GetStatusChange. mrun.
  rewrite Hc, Hdone. rewrite bool_decide_false by (by intros [? ?]).
  cbn [orb]. rewrite native_eq, Hvalid. cbn [fst snd sdk world trace].
  rewrite native_eq. cbn [sdk world trace].
  specialize (Hwait (hctx (sdk m)) states (-1)
                (snd (pcsc.IsValid (hctx (sdk m)) (world m)))).
  destruct (pcsc.GetStatusChange _ _ _ _) as [[werr ev] w1].
  cbn [fst snd] in *. subst werr.
  match goal with
  | |- context [range_states ?idxs ?sts ?m'] =>
      pose proof (range_states_no_break idxs sts m' Hvalid) as Hnb;
      destruct (frame_range_states idxs sts m') as [Heq (evs1 & Ht1 & Hc1)];
      unfold exec in Heq, Ht1;
      destruct (range_states idxs sts m') as [[berr sts'] m2]
  end.
  cbn [fst snd sdk trace] in *. subst berr.
  assert (Hc2 : cause (sdk m2) = None) by (by rewrite <- Heq).
  destruct (IH None sts' m2 Hc2) as [Hev Hcount].
  unfold eval, exec in Hev, Hcount. split; [exact Hev|].
  rewrite Hcount, Ht1, !count_app.
  assert (count is_wait evs1 = 0%nat) as ->.
  { clear -Hc1. induction Hc1 as [|e evs He _ IHe]; [done|].
    unfold count in *. cbn. destruct e; try discriminate; exact IHe. }
  cbn. lia.
Qed.

End Loop.

(** ** The properties at work on scripted worlds *)

(** C1, at a failing input: the session is valid, readers R0 and R1 are
    known, no policy is registered, and the first wait call fails (or the
    session turns invalid inside the loop).  Run logs the error, waits on
    the wait group and returns the error, but the cancellation function is
    never called and the context stays uncancelled: an error found inside
    the loop does not go through the cancellation signal. *)
Theorem Run_loop_error_not_signalled :
  (fst (Run 1 (boot wait_fails twoReaders)) = Some (Some errWait) /\
   stops (trace (exec (Run 1) (boot wait_fails twoReaders))) = [] /\
   cause (sdk (exec (Run 1) (boot wait_fails twoReaders))) = None /\
   count is_wg_wait (trace (exec (Run 1) (boot wait_fails twoReaders))) = 1%nat) /\
  (fst (Run 1 (boot goes_invalid twoReaders)) = Some (Some errInvalid) /\
   stops (trace (exec (Run 1) (boot goes_invalid twoReaders))) = [] /\
   cause (sdk (exec (Run 1) (boot goes_invalid twoReaders))) = None /\
   count is_wg_wait (trace (exec (Run 1) (boot goes_invalid twoReaders))) = 1%nat).
Proof. by vm_compute. Qed.

Lemma dispose_once_witness :
  eval Disposed
    (do_calls [CallInit; CallSelectReader None]
       (boot healthy (zeroSDK true))) = false /\
  eval Disposed
    (do_calls [CallRun 2; CallDispose; CallDisposed]
       (exec dispose
          (do_calls [CallInit; CallSelectReader None]
             (boot healthy (zeroSDK true))))) = true.
Proof.
  destruct (dispose_once (boot healthy (zeroSDK true))
              [CallInit; CallSelectReader None]
              [CallRun 2; CallDispose; CallDisposed]
              eq_refl eq_refl) as (H0 & _ & H2 & _).
  split; [exact H0|exact H2].
Defined.

(** C3, as stated, fails when the first call passes nil: nothing is
    installed by it, the second call installs its own function, and no
    warning is logged. *)
Lemma SelectReader_nil_first_counterexample :
  readerSelect (sdk (exec (SelectReader None) (boot healthy (zeroSDK true)))) =
    None /\
  readerSelect
    (sdk (exec (SelectReader (Some select_none))
            (exec (SelectReader None) (boot healthy (zeroSDK true))))) =
    Some select_none /\
  trace (exec (SelectReader (Some select_none))
           (exec (SelectReader None) (boot healthy (zeroSDK true)))) = [] /\
  ~ (readerSelect
       (sdk (exec (SelectReader (Some select_none))
               (exec (SelectReader None) (boot healthy (zeroSDK true))))) =
     readerSelect
       (sdk (exec (SelectReader None) (boot healthy (zeroSDK true)))) /\
     count is_warning
       (trace (exec (SelectReader (Some select_none))
                 (exec (SelectReader None) (boot healthy (zeroSDK true))))) =
     1%nat).
Proof.
  split_and!; try reflexivity.
  intros [H _]. vm_compute in H. discriminate H.
Qed.

Lemma SelectReader_second_ignored_witness :
  readerSelect
    (sdk (exec (SelectReader (Some select_second))
            (exec (SelectReader (Some select_none))
               (boot healthy (zeroSDK true))))) = Some select_none /\
  trace (exec (SelectReader (Some select_second))
           (exec (SelectReader (Some select_none))
              (boot healthy (zeroSDK true)))) =
    [EvLog LevelWarn
       "nfc: reader select callback can only be attached once" []].
Proof.
  destruct (SelectReader_second_ignored (boot healthy (zeroSDK true))
              select_none (Some select_second) eq_refl)
    as (_ & H2 & _ & H4).
  split; [exact H2|]. rewrite H4. reflexivity.
Defined.

Lemma Run_default_selection_witness :
  readers (sdk (exec (Run 3) (boot healthy twoReaders))) =
    [Reader.mk 1 "R0" true; Reader.mk 2 "R1" false].
Proof.
  apply (Run_default_selection 3 (boot healthy twoReaders) 1%nat
           (Reader.mk 1 "R0" false) [Reader.mk 2 "R1" false]);
    [reflexivity|reflexivity|reflexivity|].
  repeat constructor.
Defined.

Lemma Run_no_readers_enabled_witness :
  fst (Run 3 (boot healthy (set_readerSelect (Some select_none) twoReaders))) =
    Some (Some (wrapError "nfcsdk: no readers enabled" (errorString "nfcsdk"))) /\
  wait_calls
    (trace (exec (Run 3)
              (boot healthy (set_readerSelect (Some select_none) twoReaders)))) =
    [].
Proof.
  destruct (Run_no_readers_enabled 3
              (boot healthy (set_readerSelect (Some select_none) twoReaders))
              (@mkMachine (scripted healthy)
                 (set_readers [] (set_readerSelect (Some select_none) twoReaders))
                 1%nat [EvIsValid])
              1%nat eq_refl ltac:(discriminate) eq_refl ltac:(constructor))
    as [H1 H2].
  split; [rewrite H1; reflexivity|exact H2].
Defined.

Lemma Run_opening_checks_witness :
  fst (Run 0 (boot invalid_session (zeroSDK true))) =
    Some (Some (joinError
                  [errInvalid;
                   wrapError "nfcsdk: no readers present" (errorString "nfcsdk")])) /\
  stops (trace (exec (Run 0) (boot invalid_session (zeroSDK true)))) =
    [joinError
       [errInvalid;
        wrapError "nfcsdk: no readers present" (errorString "nfcsdk")]].
Proof.
  destruct (Run_opening_checks 0 (boot invalid_session (zeroSDK true))
              (Some errInvalid) 1%nat eq_refl
              (or_introl (ex_intro _ errInvalid eq_refl)))
    as [H1 _].
  unfold exec. rewrite H1. split; reflexivity.
Defined.

Lemma init_populates_witness :
  eval init (boot healthy (zeroSDK true)) = None /\
  readers (sdk (exec init (boot healthy (zeroSDK true)))) =
    [Reader.mk 1 "R0" false; Reader.mk 2 "R1" false].
Proof.
  destruct (init_populates (boot healthy (zeroSDK true))
              (Some (pcsc.mkHContext 1)) None None ["R0"; "R1"] 1%nat 2%nat
              eq_refl eq_refl)
    as (H1 & _ & H3).
  split; [exact H1|exact H3].
Defined.

Lemma handleCard_recoverable_witness :
  trace (exec (handleCard "R0")
           (@mkMachine (scripted no_connect) twoReaders 1%nat
              ([] ++ logged twoReaders LevelDebug
                       "card is present in the reader." [] ++ [EvIsValid]))) =
    [EvLog LevelDebug "nfc: card is present in the reader." []; EvIsValid;
     EvConnect "R0" 1 3;
     EvLog LevelError "nfc: connect: no smart card" []] /\
  range_states [0%nat] [presentR0] (boot no_connect twoReaders) =
    range_states [] (alter arm 0%nat [presentR0])
      (exec (handleCard "R0")
         (@mkMachine (scripted no_connect) twoReaders 1%nat
            ([] ++ logged twoReaders LevelDebug
                     "card is present in the reader." [] ++ [EvIsValid]))).
Proof.
  destruct (handleCard_recoverable (boot no_connect twoReaders) 0%nat []
              [presentR0] presentR0 1%nat 2%nat (inr errConnect)
              eq_refl eq_refl eq_refl eq_refl)
    as (_ & _ & H3 & _ & _ & H5).
  split; [exact (eq_trans H3 eq_refl)|exact H5].
Defined.

Lemma Run_selector_error_witness :
  fst (Run 3 (boot healthy (set_readerSelect (Some select_failing) twoReaders))) =
    Some (Some errSelect) /\
  readers
    (sdk (exec (Run 3)
            (boot healthy (set_readerSelect (Some select_failing) twoReaders)))) =
    [Reader.mk 1 "R0" false].
Proof.
  destruct (Run_selector_error 3
              (boot healthy (set_readerSelect (Some select_failing) twoReaders))
              1%nat select_failing [Reader.mk 1 "R0" false] errSelect
              eq_refl ltac:(discriminate) eq_refl eq_refl)
    as [H1 H2].
  split; [rewrite H1; reflexivity|exact H2].
Defined.

(** ** Invariants of the SDK fields over any calls *)

Section KeepsRules.

Context {N : pcsc.Native}.

Variable I : SDK -> Prop.
Variable P : event -> Prop.

Lemma keeps_ret {A} (a : A) : keeps I P (ret a).
Proof. intros m Hm; split; [done|]. exists []. by rewrite app_nil_r. Qed.

Lemma keeps_gets {A} (f : SDK -> A) : keeps I P (gets f).
Proof. intros m Hm; split; [done|]. exists []. by rewrite app_nil_r. Qed.

Lemma keeps_ctx_Done : keeps I P ctx_Done.
Proof. intros m Hm; split; [done|]. exists []. by rewrite app_nil_r. Qed.

Lemma keeps_bind {A B} (c : M A) (k : A -> M B) :
  keeps I P c -> (forall a, keeps I P (k a)) -> keeps I P (bind c k).
Proof.
  intros Hc Hk m Hm. rewrite exec_bind.
  destruct (Hc m Hm) as [Hi (evs & Ht & Hp)].
  destruct (Hk (eval c m) (exec c m) Hi) as [Hi' (evs' & Ht' & Hp')].
  split; [done|].
  exists (evs ++ evs'). rewrite Ht', Ht, app_assoc.
  split; [done|]. by apply Forall_app.
Qed.

Lemma keeps_emit (e : event) : P e -> keeps I P (emit e).
Proof.
  intros He m Hm; split; [done|]. exists [e]. split; [done|].
  by constructor.
Qed.

Lemma keeps_native {A} (call : pcsc.World -> A * pcsc.World) (ev : A -> event) :
  (forall a, P (ev a)) -> keeps I P (native call ev).
Proof.
  intros He m Hm. rewrite exec_native. cbn [sdk trace].
  split; [done|]. eexists. split; [done|]. by constructor.
Qed.

Lemma keeps_modify (f : SDK -> SDK) :
  (forall s, I s -> I (f s)) -> keeps I P (modify f).
Proof.
  intros Hf m Hm; split; [by apply Hf|]. exists []. by rewrite app_nil_r.
Qed.

Lemma keeps_Log level msg args :
  (forall s, I s -> Forall P (logged s level msg args)) ->
  keeps I P (Log level msg args).
Proof.
  intros Hl m Hm. rewrite exec_Log. cbn [sdk trace].
  split; [done|]. eexists. split; [done|]. by apply Hl.
Qed.

End KeepsRules.

Ltac keeps_side :=
  solve [ intros; cbn beta; first [ done | eauto ] ].

Ltac keeps_step :=
  first
    [ apply keeps_ret
    | apply keeps_gets
    | apply keeps_ctx_Done
    | apply keeps_emit; keeps_side
    | apply keeps_native; keeps_side
    | apply keeps_modify; keeps_side
    | apply keeps_Log; keeps_side
    | apply keeps_bind; [|intros ?]
    | match goal with
      | |- keeps _ _ (match ?x with _ => _ end) => destruct x
      end ].

Ltac keeps_auto := repeat (keeps_step; cbn [fst snd]).

Section AnyCalls.

Context {N : pcsc.Native}.

Variable I : SDK -> Prop.
Variable P : event -> Prop.
Hypothesis I_stable : stable I.
Hypothesis P_log : forall s level msg args, I s -> Forall P (logged s level msg args).
Hypothesis P_other : forall e, is_log e = false -> P e.

Lemma stable_cause s v : I s -> I (set_cause v s).
Proof. intros Hs. by apply (I_stable s Hs). Qed.
Lemma stable_readers s v : I s -> I (set_readers v s).
Proof. intros Hs. by apply (I_stable s Hs). Qed.
Lemma stable_hctx s v : I s -> I (set_hctx v s).
Proof. intros Hs. by apply (I_stable s Hs). Qed.
Lemma stable_disposed s : I s -> I (set_disposed true s).
Proof. intros Hs. by apply (I_stable s Hs). Qed.

Hint Resolve stable_cause stable_readers stable_hctx stable_disposed P_log : core.

Lemma keeps_handleCard (readerName : string) :
  keeps I P (handleCard readerName).
Proof.
  unfold handleCard, hctx_Connect, card_Disconnect, log_error, debug.
  keeps_auto.
Qed.

Lemma keeps_range_states (idxs : list nat) (states : list pcsc.ReaderState) :
  keeps I P (range_states idxs states).
Proof.
  revert states. induction idxs as [|i rest IH]; intros states; cbn.
  - keeps_auto.
  - destruct (_ !! i) as [st|]; [|keeps_auto].
    destruct (present _); unfold debug, hctx_IsValid, log_error;
      keeps_auto; try apply keeps_handleCard; try apply IH.
Qed.

Lemma keeps_runner (fuel : nat) (err : option error)
    (states : list pcsc.ReaderState) :
  keeps I P (runner fuel err states).
Proof.
  revert err states. induction fuel as [|fuel IH]; intros err states; cbn.
  - keeps_auto.
  - unfold hctx_IsValid, hctx_GetStatusChange, log_error.
    keeps_auto; try apply IH; try apply keeps_range_states.
Qed.

Lemma keeps_stop (err : error) : keeps I P (stop err).
Proof. unfold stop. keeps_auto. Qed.

Lemma keeps_select_readers : keeps I P select_readers.
Proof. unfold select_readers. keeps_auto. Qed.

Lemma keeps_Run (fuel : nat) : keeps I P (Run fuel).
Proof.
  unfold Run, hctx_IsValid, log_error, wg_Wait, debug.
  keeps_auto; try apply keeps_stop; try apply keeps_select_readers;
    try apply keeps_runner.
Qed.

Lemma keeps_init_range (i : nat) (readerNames : list string) :
  keeps I P (init_range i readerNames).
Proof.
  revert i. induction readerNames as [|n rest IH]; intros i; cbn.
  - keeps_auto.
  - unfold debug. keeps_auto. apply IH.
Qed.

Lemma keeps_init : keeps I P init.
Proof.
  unfold init, hctx_ListReaders, debug.
  keeps_auto; try apply keeps_init_range.
Qed.

Lemma keeps_SelectReader (fn : option ReaderSelectFunc) :
  keeps I P (SelectReader fn).
Proof.
  intros m Hm. unfold SelectReader.
  rewrite exec_bind, eval_gets, exec_gets.
  destruct (readerSelect (sdk m)) eqn:Hsel.
  - unfold warn. rewrite exec_Log. cbn [sdk trace]. split; [done|].
    eexists. split; [done|]. by apply P_log.
  - rewrite exec_modify. cbn [sdk trace]. split.
    + by apply (I_stable (sdk m) Hm).
    + exists []. by rewrite app_nil_r.
Qed.

Lemma keeps_dispose : keeps I P dispose.
Proof.
  unfold dispose, Disposed, warn, debug, hctx_Cancel, hctx_Release, log_error.
  keeps_auto.
Qed.

Lemma keeps_do_call (c : call) (m : Machine) :
  I (sdk m) ->
  I (sdk (do_call c m)) /\
  exists evs, trace (do_call c m) = trace m ++ evs /\ Forall P evs.
Proof.
  destruct c; cbn [do_call].
  - apply keeps_init.
  - apply keeps_Run.
  - apply keeps_SelectReader.
  - apply (keeps_gets I P).
  - apply keeps_dispose.
Qed.

Lemma keeps_do_calls (cs : list call) (m : Machine) :
  I (sdk m) ->
  I (sdk (do_calls cs m)) /\
  exists evs, trace (do_calls cs m) = trace m ++ evs /\ Forall P evs.
Proof.
  revert m. induction cs as [|c cs IH]; intros m Hm.
  - split; [done|]. exists []. by rewrite app_nil_r.
  - destruct (keeps_do_call c m Hm) as [Hi (evs & Ht & Hp)].
    destruct (IH (do_call c m) Hi) as [Hi' (evs' & Ht' & Hp')].
    split; [exact Hi'|].
    exists (evs ++ evs'). cbn [do_calls foldl] in *. unfold do_calls in Ht'.
    rewrite Ht', Ht, app_assoc. split; [done|]. by apply Forall_app.
Qed.

End AnyCalls.

Section Footprint.

Context {N : pcsc.Native}.

Lemma count_Forall_false (p : event -> bool) (evs : list event) :
  Forall (fun e => p e = false) evs -> count p evs = 0%nat.
Proof.
  induction 1 as [|e evs He _ IH]; [done|].
  unfold count in *. cbn. by rewrite He.
Qed.

(** X1: every record that reaches the logger carries the tag.  Whatever
    calls are made on an SDK, each log record they add to the trace has a
    message that starts with the fixed prefix. *)
Theorem log_records_tagged (cs : list call) (m : Machine) :
  exists evs, trace (do_calls cs m) = trace m ++ evs /\ Forall tagged evs.
Proof.
  refine (proj2 (keeps_do_calls (fun _ => True) tagged _ _ _ cs m Logic.I)).
  - intros s _. by split_and!.
  - intros s level msg args _. unfold logged. destruct (logger s); [|done].
    constructor; [|done]. unfold tagged, logPrefix. cbn. by destruct msg.
  - intros e He. by destruct e.
Qed.

(** X2: without a logger nothing is logged.  On an SDK whose logger is
    nil, no call of any method adds a log record to the trace, and the
    logger stays nil. *)
Theorem no_logger_no_records (cs : list call) (m : Machine) :
  logger (sdk m) = false ->
  logger (sdk (do_calls cs m)) = false /\
  count is_log (trace (do_calls cs m)) = count is_log (trace m).
Proof.
  intros Hm.
  assert (Hst : stable (fun s => logger s = false))
    by (intros s Hs; repeat split; intros; exact Hs).
  assert (Hlog : forall s level msg args, logger s = false ->
            Forall (fun e => is_log e = false) (logged s level msg args))
    by (intros s level msg args Hs; unfold logged; by rewrite Hs).
  destruct (keeps_do_calls _ _ Hst Hlog (fun e He => He) cs m Hm)
    as [Hl (evs & Ht & Hevs)].
  split; [exact Hl|].
  rewrite Ht, count_app, (count_Forall_false is_log evs Hevs). lia.
Qed.

(** X3: a registered policy is permanent.  Once a selection function is
    registered, no call of any method (registration, init, Run, dispose)
    replaces or removes it. *)
Theorem policy_is_permanent (f : ReaderSelectFunc) (cs : list call)
    (m : Machine) :
  readerSelect (sdk m) = Some f ->
  readerSelect (sdk (do_calls cs m)) = Some f.
Proof.
  intros Hm.
  refine (proj1 (keeps_do_calls (fun s => readerSelect s = Some f)
                   (fun _ => True) _ _ _ cs m Hm)).
  - intros s Hs. repeat split; intros; try exact Hs. cbn in *. congruence.
  - intros. by apply Forall_true.
  - done.
Qed.

End Footprint.

(** ** The first disposal *)

Section Teardown.

Context {N : pcsc.Native}.

(** The events of a first disposal on a session, by the answers of the two
    native calls. *)
Lemma dispose_fresh_run (m : Machine) (h : pcsc.HContext)
    (c1 c2 : option error) (w1 w2 : pcsc.World) :
  disposed (sdk m) = false ->
  hctx (sdk m) = Some h ->
  pcsc.Cancel (Some h) (world m) = (c1, w1) ->
  pcsc.Release (Some h) w1 = (c2, w2) ->
  dispose m =
    (tt, mkMachine (set_disposed true (sdk m)) w2
           (trace m ++
            logged (sdk m) LevelDebug "disposing..." [] ++
            logged (sdk m) LevelDebug "cancel pending actions" [] ++
            [EvCancel] ++ logged_error (sdk m) c1 ++
            logged (sdk m) LevelDebug "released scard context" [] ++
            [EvRelease] ++ logged_error (sdk m) c2 ++
            logged (sdk m) LevelDebug "sdk disposed" [])).
Proof.
  intros Hd Hh Hc Hr.
  unfold dispose, Disposed, hctx_Cancel, hctx_Release. mrun.
  rewrite Hd. rewrite Log_run. mrun. cbn [set_disposed hctx]. rewrite Hh.
  rewrite Log_run. mrun. cbn [sdk world trace set_disposed hctx]. rewrite Hh.
  erewrite native_run by (cbn [world]; exact Hc). cbn [fst snd].
  assert (Hlog : forall (e : option error) (m' : Machine),
            log_error e m' =
            (tt, mkMachine (sdk m') (world m')
                   (trace m' ++ logged_error (sdk m') e))).
  { intros [e|] m'; cbn [log_error logged_error].
    - by rewrite Log_run.
    - unfold ret. destruct m'; cbn. by rewrite app_nil_r. }
  rewrite Hlog. cbn [sdk world trace]. rewrite Log_run. mrun.
  cbn [sdk world trace set_disposed hctx].
  rewrite Hh. erewrite native_run by (cbn [world]; exact Hr). cbn [fst snd].
  rewrite Hlog. cbn [sdk world trace]. rewrite Log_run. cbn [sdk world trace].
  unfold logged, logged_error, logged. cbn [logger set_disposed].
  by rewrite <- !app_assoc.
Qed.

Lemma dispose_no_session_run (m : Machine) :
  disposed (sdk m) = false ->
  hctx (sdk m) = None ->
  dispose m =
    (tt, mkMachine (set_disposed true (sdk m)) (world m)
           (trace m ++
            logged (sdk m) LevelDebug "disposing..." [] ++
            logged (sdk m) LevelDebug "sdk disposed" [])).
Proof.
  intros Hd Hh.
  unfold dispose, Disposed. mrun.
  rewrite Hd. rewrite Log_run. mrun. cbn [set_disposed hctx]. rewrite Hh.
  rewrite Log_run. cbn [sdk world trace].
  unfold logged. cbn [logger set_disposed].
  by rewrite <- !app_assoc.
Qed.

(** X4: the first disposal is best effort.  On an SDK not yet disposed
    that holds a session, dispose() raises the flag, then cancels pending
    calls and releases the session, each exactly once and in this order;
    an error of either call is logged and changes nothing else, so a failed
    cancel does not keep the release from being made. *)
Theorem dispose_first (m : Machine) (h : pcsc.HContext)
    (c1 c2 : option error) (w1 w2 : pcsc.World) :
  disposed (sdk m) = false ->
  hctx (sdk m) = Some h ->
  pcsc.Cancel (Some h) (world m) = (c1, w1) ->
  pcsc.Release (Some h) w1 = (c2, w2) ->
  exec dispose m =
    mkMachine (set_disposed true (sdk m)) w2
      (trace m ++
       logged (sdk m) LevelDebug "disposing..." [] ++
       logged (sdk m) LevelDebug "cancel pending actions" [] ++
       [EvCancel] ++ logged_error (sdk m) c1 ++
       logged (sdk m) LevelDebug "released scard context" [] ++
       [EvRelease] ++ logged_error (sdk m) c2 ++
       logged (sdk m) LevelDebug "sdk disposed" []).
Proof.
  intros Hd Hh Hc Hr. unfold exec.
  by rewrite (dispose_fresh_run m h c1 c2 w1 w2).
Qed.

(** X5: disposal without a session.  On an SDK not yet disposed whose
    session handle is nil, dispose() raises the flag and makes no native
    call at all: the outside world is untouched and only the two debug
    records are logged. *)
Theorem dispose_without_session (m : Machine) :
  disposed (sdk m) = false ->
  hctx (sdk m) = None ->
  exec dispose m =
    mkMachine (set_disposed true (sdk m)) (world m)
      (trace m ++
       logged (sdk m) LevelDebug "disposing..." [] ++
       logged (sdk m) LevelDebug "sdk disposed" []).
Proof.
  intros Hd Hh. unfold exec. by rewrite (dispose_no_session_run m).
Qed.

Lemma count_logged_error (p : event -> bool) (s : SDK) (err : option error) :
  (forall l t a, p (EvLog l t a) = false) ->
  count p (logged_error s err) = 0%nat.
Proof. intros Hp. destruct err; [by apply count_logged|done]. Qed.

(** What one dispose() adds: at most one cancel and one release, and none
    when the SDK is disposed already. *)
Lemma dispose_adds (m : Machine) :
  exists evs, trace (exec dispose m) = trace m ++ evs /\
    (count is_cancel evs <= if disposed (sdk m) then 0 else 1)%nat /\
    (count is_release evs <= if disposed (sdk m) then 0 else 1)%nat.
Proof.
  destruct (disposed (sdk m)) eqn:Hd.
  - unfold exec. rewrite dispose_again by done. unfold warn.
    rewrite Log_run. cbn [snd trace]. eexists. split; [done|].
    by rewrite !count_logged.
  - destruct (hctx (sdk m)) as [h|] eqn:Hh.
    + destruct (pcsc.Cancel (Some h) (world m)) as [c1 w1] eqn:Hc.
      destruct (pcsc.Release (Some h) w1) as [c2 w2] eqn:Hr.
      unfold exec. rewrite (dispose_fresh_run m h c1 c2 w1 w2) by done.
      cbn [snd trace]. eexists. split; [done|].
      rewrite !count_app, !count_logged, !count_logged_error by done.
      cbn. lia.
    + unfold exec. rewrite dispose_no_session_run by done.
      cbn [snd trace]. eexists. split; [done|].
      rewrite !count_app, !count_logged by done. lia.
Qed.

Lemma frame_init_quiet :
  frame (fun _ _ => True) (fun e => is_teardown e = false) init.
Proof.
  assert (Hr : forall i names,
            frame (fun _ _ => True) (fun e => is_teardown e = false)
                  (init_range i names)).
  { intros i names. revert i.
    induction names as [|n rest IH]; intros i; cbn.
    - frame_auto.
    - unfold debug. frame_auto. apply IH. }
  unfold init, hctx_ListReaders, debug. frame_auto. apply Hr.
Qed.

Lemma frame_SelectReader_quiet (fn : option ReaderSelectFunc) :
  frame (fun _ _ => True) (fun e => is_teardown e = false) (SelectReader fn).
Proof. unfold SelectReader, warn. frame_auto. Qed.

(** What a call other than dispose adds: no cancel and no release. *)
Lemma other_call_adds (c : call) (m : Machine) :
  is_dispose c = false ->
  exists evs, trace (do_call c m) = trace m ++ evs /\
              Forall (fun e => is_teardown e = false) evs.
Proof.
  destruct c; cbn [do_call is_dispose]; intros Hc; try discriminate.
  - by destruct (frame_init_quiet m) as [_ H].
  - destruct (frame_Run fuel m) as [_ (evs & Ht & Hevs)].
    exists evs. split; [done|]. eapply Forall_impl; [exact Hevs|].
    intros e He. by destruct e.
  - by destruct (frame_SelectReader_quiet fn m) as [_ H].
  - exists []. by rewrite app_nil_r.
Qed.

Lemma teardown_split (evs : list event) :
  Forall (fun e => is_teardown e = false) evs ->
  count is_cancel evs = 0%nat /\ count is_release evs = 0%nat.
Proof.
  intros H. split; apply count_Forall_false;
    (eapply Forall_impl; [exact H|]); intros e He; by destruct e.
Qed.

Lemma calls_teardown (cs : list call) (m : Machine) :
  exists evs, trace (do_calls cs m) = trace m ++ evs /\
    (count is_cancel evs <= if disposed (sdk m) then 0 else 1)%nat /\
    (count is_release evs <= if disposed (sdk m) then 0 else 1)%nat.
Proof.
  revert m. induction cs as [|c cs IH]; intros m.
  { exists []. rewrite app_nil_r. split; [done|]. destruct (disposed _); cbn; lia. }
  cbn [do_calls foldl]. fold (do_calls cs (do_call c m)).
  destruct (IH (do_call c m)) as (evs2 & Ht2 & Hc2 & Hr2).
  destruct (is_dispose c) eqn:Hdc.
  - destruct c; try discriminate. cbn [do_call] in *.
    destruct (dispose_adds m) as (evs1 & Ht1 & Hc1 & Hr1).
    assert (Hd : disposed (sdk (exec dispose m)) = true)
      by (by destruct (frame_dispose m) as [-> _]).
    rewrite Hd in Hc2, Hr2.
    exists (evs1 ++ evs2). rewrite Ht2, Ht1, <- app_assoc. split; [done|].
    rewrite !count_app. lia.
  - destruct (other_call_adds c m Hdc) as (evs1 & Ht1 & Hq).
    destruct (teardown_split evs1 Hq) as [Hc1 Hr1].
    rewrite (do_call_keeps_disposed c m Hdc) in Hc2, Hr2.
    exists (evs1 ++ evs2). rewrite Ht2, Ht1, <- app_assoc. split; [done|].
    rewrite !count_app. lia.
Qed.

(** X6: teardown happens at most once.  Whatever calls are made on an SDK,
    one after the other, the session is cancelled at most once and released
    at most once in all; and once the SDK is disposed, never again. *)
Theorem teardown_at_most_once (cs : list call) (m : Machine) :
  (count is_cancel (trace (do_calls cs m)) <=
     count is_cancel (trace m) + if disposed (sdk m) then 0 else 1)%nat /\
  (count is_release (trace (do_calls cs m)) <=
     count is_release (trace m) + if disposed (sdk m) then 0 else 1)%nat.
Proof.
  destruct (calls_teardown cs m) as (evs & Ht & Hc & Hr).
  rewrite Ht, !count_app. lia.
Qed.

End Teardown.

(** ** Run, further *)

Section RunFurther.

Context {N : pcsc.Native}.

Lemma frame_Run_fields (fuel : nat) :
  frame (fun s s' => logger s' = logger s /\ disposed s' = disposed s /\
                     hctx s' = hctx s /\ readerSelect s' = readerSelect s)
        (fun e => run_event e = true) (Run fuel).
Proof.
  assert (Hstop : forall err,
    frame (fun s s' => logger s' = logger s /\ disposed s' = disposed s /\
                       hctx s' = hctx s /\ readerSelect s' = readerSelect s)
          (fun e => run_event e = true) (stop err))
    by (intros err; unfold stop; frame_auto).
  assert (Hsel :
    frame (fun s s' => logger s' = logger s /\ disposed s' = disposed s /\
                       hctx s' = hctx s /\ readerSelect s' = readerSelect s)
          (fun e => run_event e = true) select_readers)
    by (unfold select_readers; frame_auto).
  unfold Run, hctx_IsValid, log_error, wg_Wait, debug.
  frame_auto; try apply Hstop; try apply Hsel.
  eapply frame_weaken; [| |apply frame_runner].
  - by intros s s' ->.
  - intros e He. unfold run_event. rewrite He. by destruct e.
Qed.

(** X7: what Run leaves alone.  However long it is followed, Run changes
    neither the logger, nor the disposal flag, nor the session handle, nor
    the registered policy, and it makes no establish, list, cancel or
    release call: its events are log records, validity checks, wait calls,
    connects, disconnects, the cancellation and the wait on the wait
    group. *)
Theorem Run_footprint (fuel : nat) (m : Machine) :
  logger (sdk (exec (Run fuel) m)) = logger (sdk m) /\
  disposed (sdk (exec (Run fuel) m)) = disposed (sdk m) /\
  hctx (sdk (exec (Run fuel) m)) = hctx (sdk m) /\
  readerSelect (sdk (exec (Run fuel) m)) = readerSelect (sdk m) /\
  exists evs, trace (exec (Run fuel) m) = trace m ++ evs /\
              Forall (fun e => run_event e = true) evs.
Proof.
  destruct (frame_Run_fields fuel m) as [(H1 & H2 & H3 & H4) H5].
  by split_and!.
Qed.

Lemma ctx_Done_run (m : Machine) : ctx_Done m = (ctx_is_done m, m).
Proof. reflexivity. Qed.

Lemma log_error_run (err : option error) (m : Machine) :
  log_error err m =
  (tt, mkMachine (sdk m) (world m) (trace m ++ logged_error (sdk m) err)).
Proof.
  destruct err as [e|]; cbn [log_error logged_error].
  - by rewrite Log_run.
  - unfold ret. destruct m; cbn. by rewrite app_nil_r.
Qed.

(** The loop found with the context done: it is left at once. *)
Lemma runner_done (fuel : nat) (err : option error)
    (states : list pcsc.ReaderState) (m : Machine) :
  ctx_is_done m = true ->
  runner (S fuel) err states m = (Some err, m).
Proof.
  intros Hd. cbn [runner]. unfold bind at 1. by rewrite ctx_Done_run, Hd.
Qed.

(** The loop found with the session invalid. *)
Lemma runner_invalid (fuel : nat) (err : option error)
    (states : list pcsc.ReaderState) (m : Machine)
    (e : error) (w1 : pcsc.World) :
  ctx_is_done m = false ->
  pcsc.IsValid (hctx (sdk m)) (world m) = (Some e, w1) ->
  runner (S fuel) err states m =
    (Some (Some e),
     mkMachine (sdk m) w1
       (trace m ++ [EvIsValid] ++ logged (sdk m) LevelError (error_Error e) [])).
Proof.
  intros Hd Hv. cbn [runner]. unfold bind at 1. rewrite ctx_Done_run, Hd.
  unfold hctx_IsValid, log_error. mrun.
  rewrite (native_run _ _ m _ _ Hv). rewrite Log_run. mrun.
  by rewrite <- app_assoc.
Qed.

(** The loop whose wait call fails. *)
Lemma runner_wait_fails (fuel : nat) (err : option error)
    (states : list pcsc.ReaderState) (m : Machine) (e : error)
    (wr : nat -> pcsc.ReaderState -> pcsc.ReaderState) (w1 w2 : pcsc.World) :
  ctx_is_done m = false ->
  pcsc.IsValid (hctx (sdk m)) (world m) = (None, w1) ->
  pcsc.GetStatusChange (hctx (sdk m)) states (-1) w1 = ((Some e, wr), w2) ->
  runner (S fuel) err states m =
    (Some (Some e),
     mkMachine (sdk m) w2
       (trace m ++
        [EvIsValid;
         EvGetStatusChange states (written wr states) (-1) (Some e)] ++
        logged (sdk m) LevelError (error_Error e) [])).
Proof.
  intros Hd Hv Hw. cbn [runner]. unfold bind at 1. rewrite ctx_Done_run, Hd.
  unfold hctx_IsValid, hctx_GetStatusChange, log_error. mrun.
  rewrite (native_run _ _ m _ _ Hv). cbn [sdk world trace].
  rewrite native_eq. cbn [sdk world trace]. rewrite Hw. cbn [fst snd].
  rewrite Log_run. mrun. by rewrite <- !app_assoc.
Qed.

(** When the loop is left with a nil result, the context is done. *)
Lemma runner_nil (fuel : nat) (states : list pcsc.ReaderState) (m : Machine) :
  eval (runner fuel None states) m = Some None ->
  ctx_is_done (exec (runner fuel None states) m) = true.
Proof.
  revert states m. induction fuel as [|fuel IH]; intros states m; [done|].
  unfold eval, exec. cbn [runner].
  unfold ctx_Done, hctx_IsValid, hctx_GetStatusChange. mrun.
  change (bool_decide (is_Some (cause (sdk m))) || pcsc.parentDone (world m))
    with (ctx_is_done m).
  destruct (ctx_is_done m) eqn:Hd; [done|].
  rewrite native_eq. destruct (pcsc.IsValid _ _) as [[e|] w1]; cbn [fst snd].
  { rewrite log_error_run. by cbn. }
  rewrite native_eq. cbn [sdk world trace].
  destruct (pcsc.GetStatusChange _ _ _ _) as [[[e|] wr] w2]; cbn [fst snd].
  { rewrite log_error_run. by cbn. }
  destruct (range_states _ _ _) as [[[e|] sts] m2]; cbn [fst snd]; [done|].
  apply IH.
Qed.

(** X8: nil means cancelled.  When Run returns nil, the context is done
    at that moment: the loop was left because somebody cancelled, not
    because of an error. *)
Theorem Run_nil_means_cancelled (fuel : nat) (m : Machine) :
  eval (Run fuel) m = Some None ->
  ctx_is_done (exec (Run fuel) m) = true.
Proof.
  unfold eval, exec.
  destruct (pcsc.IsValid (hctx (sdk m)) (world m)) as [v w0] eqn:Hv.
  destruct (decide (is_Some v \/ readers (sdk m) = [])) as [Hbad|Hgood].
  { by rewrite (Run_bad_opening fuel m v w0 Hv Hbad). }
  assert (v = None) as -> by (destruct v; [destruct Hgood; eauto|done]).
  assert (Hne : readers (sdk m) <> []) by tauto.
  rewrite (Run_valid fuel m w0 Hv Hne).
  destruct (select_readers _) as [[e|] m1]; [done|].
  destruct (bool_decide _); [done|].
  pose proof (runner_nil fuel (build_states (readers (sdk m1))) m1) as Hnil.
  unfold eval, exec in Hnil.
  destruct (runner fuel None _ m1) as [[err|] m2]; [|done].
  cbn [fst snd] in *. intros [= ->]. by apply Hnil.
Qed.

Lemma select_readers_keeps (m0 m1 : Machine) (r : option error) :
  select_readers m0 = (r, m1) ->
  world m1 = world m0 /\ trace m1 = trace m0 /\
  hctx (sdk m1) = hctx (sdk m0) /\ cause (sdk m1) = cause (sdk m0) /\
  logger (sdk m1) = logger (sdk m0).
Proof.
  rewrite select_readers_run. destruct (readerSelect (sdk m0)); by intros [= <- <-].
Qed.

(** Run up to the loop, when the checks pass and some reader is in use. *)
Lemma Run_enters_loop (fuel : nat) (m m1 : Machine) (w0 : pcsc.World) :
  pcsc.IsValid (hctx (sdk m)) (world m) = (None, w0) ->
  readers (sdk m) <> [] ->
  select_readers (mkMachine (sdk m) w0 (trace m ++ [EvIsValid])) = (None, m1) ->
  build_states (readers (sdk m1)) <> [] ->
  Run fuel m =
    let (r, m2) := runner fuel None (build_states (readers (sdk m1))) m1 in
    match r with
    | None => (None, m2)
    | Some err =>
        (Some err,
         mkMachine (sdk m2) (world m2)
           (trace m2 ++ [EvWgWait] ++ logged (sdk m2) LevelDebug "exiting" []))
    end.
Proof.
  intros Hv Hne Hsel Htracked.
  rewrite (Run_valid fuel m w0 Hv Hne), Hsel.
  by rewrite bool_decide_false by (destruct (build_states _); [done|cbn; lia]).
Qed.

(** X9: Run on a cancelled context.  When the opening checks pass, the
    selection leaves some reader in use and the context is done already
    when the loop is reached, Run makes no wait call: it waits on the wait
    group, logs that it exits and returns nil. *)
Theorem Run_context_done (fuel : nat) (m m1 : Machine) (w0 : pcsc.World) :
  pcsc.IsValid (hctx (sdk m)) (world m) = (None, w0) ->
  readers (sdk m) <> [] ->
  select_readers (mkMachine (sdk m) w0 (trace m ++ [EvIsValid])) = (None, m1) ->
  build_states (readers (sdk m1)) <> [] ->
  ctx_is_done (mkMachine (sdk m) w0 (trace m)) = true ->
  Run (S fuel) m =
    (Some None,
     mkMachine (sdk m1) w0
       (trace m ++ [EvIsValid; EvWgWait] ++
        logged (sdk m) LevelDebug "exiting" [])).
Proof.
  intros Hv Hne Hsel Htracked Hdone.
  destruct (select_readers_keeps _ _ _ Hsel) as (Hw & Ht & _ & Hc & Hl).
  cbn [sdk world trace] in *.
  rewrite (Run_enters_loop (S fuel) m m1 w0) by done.
  rewrite runner_done
    by (unfold ctx_is_done in *; cbn [sdk world] in *; by rewrite Hc, Hw).
  rewrite Hw, Ht. unfold logged. rewrite Hl. by rewrite <- app_assoc.
Qed.

(** X10: a failing wait call ends Run.  When the loop is reached with the
    context live and the session valid, and the first wait call fails, its
    error is logged, no handler is entered and no second wait is made: Run
    waits on the wait group, logs that it exits and returns the error of
    the wait call. *)
Theorem Run_wait_failure (fuel : nat) (m m1 : Machine) (e : error)
    (wr : nat -> pcsc.ReaderState -> pcsc.ReaderState)
    (w0 w1 w2 : pcsc.World) :
  pcsc.IsValid (hctx (sdk m)) (world m) = (None, w0) ->
  readers (sdk m) <> [] ->
  select_readers (mkMachine (sdk m) w0 (trace m ++ [EvIsValid])) = (None, m1) ->
  build_states (readers (sdk m1)) <> [] ->
  ctx_is_done (mkMachine (sdk m) w0 (trace m)) = false ->
  pcsc.IsValid (hctx (sdk m)) w0 = (None, w1) ->
  pcsc.GetStatusChange (hctx (sdk m)) (build_states (readers (sdk m1))) (-1) w1 =
    ((Some e, wr), w2) ->
  Run (S fuel) m =
    (Some (Some e),
     mkMachine (sdk m1) w2
       (trace m ++
        [EvIsValid; EvIsValid;
         EvGetStatusChange (build_states (readers (sdk m1)))
           (written wr (build_states (readers (sdk m1)))) (-1) (Some e)] ++
        logged (sdk m) LevelError (error_Error e) [] ++
        [EvWgWait] ++ logged (sdk m) LevelDebug "exiting" [])).
Proof.
  intros Hv Hne Hsel Htracked Hdone Hv1 Hwait.
  destruct (select_readers_keeps _ _ _ Hsel) as (Hw & Ht & Hh & Hc & Hl).
  cbn [sdk world trace] in *.
  rewrite (Run_enters_loop (S fuel) m m1 w0) by done.
  rewrite (runner_wait_fails fuel None _ m1 e wr w1 w2).
  - cbn [sdk world trace]. rewrite Ht. unfold logged. rewrite Hl.
    by rewrite <- !app_assoc.
  - unfold ctx_is_done in *; cbn [sdk world] in *; by rewrite Hc, Hw.
  - by rewrite Hh, Hw.
  - by rewrite Hh.
Qed.

(** X11: a session lost before the wait ends Run.  When the loop is
    reached with the context live and the session is found invalid at the
    top of the loop, the error is logged and no wait call is made: Run
    waits on the wait group, logs that it exits and returns that error. *)
Theorem Run_session_lost (fuel : nat) (m m1 : Machine) (e : error)
    (w0 w1 : pcsc.World) :
  pcsc.IsValid (hctx (sdk m)) (world m) = (None, w0) ->
  readers (sdk m) <> [] ->
  select_readers (mkMachine (sdk m) w0 (trace m ++ [EvIsValid])) = (None, m1) ->
  build_states (readers (sdk m1)) <> [] ->
  ctx_is_done (mkMachine (sdk m) w0 (trace m)) = false ->
  pcsc.IsValid (hctx (sdk m)) w0 = (Some e, w1) ->
  Run (S fuel) m =
    (Some (Some e),
     mkMachine (sdk m1) w1
       (trace m ++ [EvIsValid; EvIsValid] ++
        logged (sdk m) LevelError (error_Error e) [] ++
        [EvWgWait] ++ logged (sdk m) LevelDebug "exiting" [])).
Proof.
  intros Hv Hne Hsel Htracked Hdone Hv1.
  destruct (select_readers_keeps _ _ _ Hsel) as (Hw & Ht & Hh & Hc & Hl).
  cbn [sdk world trace] in *.
  rewrite (Run_enters_loop (S fuel) m m1 w0) by done.
  rewrite (runner_invalid fuel None _ m1 e w1).
  - cbn [sdk world trace]. rewrite Ht. unfold logged. rewrite Hl.
    by rewrite <- !app_assoc.
  - unfold ctx_is_done in *; cbn [sdk world] in *; by rewrite Hc, Hw.
  - by rewrite Hh, Hw.
Qed.


End RunFurther.

(** ** One pass over the tracked readers *)

Section Pass.

Context {N : pcsc.Native}.






(** X14: a session lost between the wake-up and the handling.  When a wait
    call succeeds, the first tracked entry has the present bit and the
    session is found invalid at the check made before the handler, the
    handler is not entered: no connect is made, the other entries are not
    visited, the error is logged and the loop is left with it. *)
Theorem runner_session_lost_before_card (fuel : nat) (m : Machine)
    (states : list pcsc.ReaderState)
    (wr : nat -> pcsc.ReaderState -> pcsc.ReaderState)
    (st : pcsc.ReaderState) (others : list pcsc.ReaderState)
    (e : error) (w1 w2 w3 : pcsc.World) :
  ctx_is_done m = false ->
  pcsc.IsValid (hctx (sdk m)) (world m) = (None, w1) ->
  pcsc.GetStatusChange (hctx (sdk m)) states (-1) w1 = ((None, wr), w2) ->
  written wr states = st :: others ->
  present (pcsc.EventState st) = true ->
  pcsc.IsValid (hctx (sdk m)) w2 = (Some e, w3) ->
  runner (S fuel) None states m =
    (Some (Some e),
     mkMachine (sdk m) w3
       (trace m ++
        [EvIsValid; EvGetStatusChange states (st :: others) (-1) None] ++
        logged (sdk m) LevelDebug "card is present in the reader." [] ++
        [EvIsValid] ++
        logged (sdk m) LevelError (error_Error e) [])).
Proof.
  intros Hd Hv Hw Hwr Hp Hv2.
  cbn [runner]. unfold bind at 1. rewrite ctx_Done_run, Hd.
  unfold hctx_IsValid, hctx_GetStatusChange. mrun.
  rewrite (native_run _ _ m _ _ Hv). cbn [sdk world trace].
  rewrite native_eq. cbn [sdk world trace]. rewrite Hw. cbn [fst snd].
  rewrite Hwr. cbn [length seq range_states].
  cbn [alter list_alter lookup list_lookup pcsc.set_CurrentState pcsc.EventState].
  rewrite Hp. unfold hctx_IsValid, log_error. mrun. rewrite Log_run. mrun.
  erewrite native_run by (cbn [world]; exact Hv2). cbn [fst snd].
  rewrite Log_run. mrun. by rewrite <- !app_assoc.
Qed.

End Pass.

(** ** Initialisation, further *)

Section InitFurther.

Context {N : pcsc.Native}.

Lemma init_range_run (readerNames : list string) (i : nat) (m : Machine) :
  init_range i readerNames m =
  (tt, mkMachine
         (set_readers
            (readers (sdk m) ++
             imap (fun j readerName =>
                     Reader.mk (Z.of_nat (i + j) + 1) readerName false)
                  readerNames)
            (sdk m))
         (world m)
         (trace m ++
          concat (imap (fun j readerName =>
                          found_record (sdk m) (i + j) readerName)
                       readerNames))).
Proof.
  revert i m. induction readerNames as [|n rest IH]; intros i m.
  - cbn. rewrite !app_nil_r. by destruct m as [[] ? ?].
  - cbn [init_range]. mrun. rewrite Log_run. mrun. rewrite IH.
    cbn [sdk world trace set_readers readers]. do 2 f_equal.
    + unfold set_readers; cbn. f_equal. rewrite <- app_assoc. cbn.
      rewrite Nat.add_0_r. do 2 f_equal.
      apply imap_ext. intros j x _. cbn. do 2 f_equal. lia.
    + rewrite <- app_assoc. f_equal. cbn [imap concat].
      rewrite Nat.add_0_r. f_equal. f_equal.
      apply imap_ext. intros j x _. cbn [compose].
      replace (S i + j)%nat with (i + S j)%nat by lia.
      unfold found_record, logged. by cbn [logger set_readers].
Qed.

(** X15: a successful init logs what it found.  When establish and the
    listing succeed and some name is returned, init makes exactly these two
    native calls, logs that the context is established and then one debug
    record for each reader, in discovery order, with its id and name; the
    session handle and the inventory are set as the calls said. *)
Theorem init_logs_discovered (m : Machine) (h : option pcsc.HContext)
    (names : list string) (w1 w2 : pcsc.World) :
  pcsc.SCardEstablishContext pcsc.ScardScopeSystem (world m) =
    ((h, None), w1) ->
  pcsc.ListReaders h w1 = ((names, None), w2) ->
  names <> [] ->
  init m =
    (None,
     mkMachine
       (set_readers (readers (sdk m) ++ discovered names)
          (set_hctx h (sdk m)))
       w2
       (trace m ++
        [EvEstablish pcsc.ScardScopeSystem] ++
        logged (sdk m) LevelDebug "scard context established" [] ++
        [EvListReaders] ++
        concat (imap (found_record (sdk m)) names))).
Proof.
  intros He Hl Hne. unfold init, hctx_ListReaders. mrun.
  rewrite (native_run _ _ m _ _ He). mrun.
  rewrite Log_run. mrun. cbn [set_hctx hctx].
  erewrite native_run by (cbn [world]; exact Hl). mrun.
  rewrite bool_decide_false by (destruct names; [done|cbn; lia]).
  rewrite init_range_run. cbn [sdk world trace readers set_hctx set_readers].
  unfold discovered, logged, found_record, logged. cbn [logger].
  by rewrite <- !app_assoc.
Qed.

(** X16: a failed init stops early.  When establish fails, init stores the
    handle it was given and returns without listing the readers; when the
    listing fails or returns no name, it returns after the listing.  In
    each case the inventory is left as it was and no reader is logged. *)
Theorem init_failure_stops_early (m : Machine) (h : option pcsc.HContext)
    (e1 e2 : option error) (names : list string) (w1 w2 : pcsc.World) :
  pcsc.SCardEstablishContext pcsc.ScardScopeSystem (world m) = ((h, e1), w1) ->
  pcsc.ListReaders h w1 = ((names, e2), w2) ->
  is_Some e1 \/ is_Some e2 \/ names = [] ->
  exec init m =
    match e1 with
    | Some _ =>
        mkMachine (set_hctx h (sdk m)) w1
          (trace m ++ [EvEstablish pcsc.ScardScopeSystem])
    | None =>
        mkMachine (set_hctx h (sdk m)) w2
          (trace m ++
           [EvEstablish pcsc.ScardScopeSystem] ++
           logged (sdk m) LevelDebug "scard context established" [] ++
           [EvListReaders])
    end.
Proof.
  intros He Hl Hbad. unfold exec, init, hctx_ListReaders. mrun.
  rewrite (native_run _ _ m _ _ He). mrun.
  destruct e1 as [e|]; [done|].
  rewrite Log_run. mrun. cbn [set_hctx hctx].
  erewrite native_run by (cbn [world]; exact Hl). mrun.
  unfold logged. cbn [logger].
  destruct e2 as [e|]; [by rewrite <- !app_assoc|].
  destruct Hbad as [[? ?]|[[? ?]|Hn]]; try discriminate. subst names.
  rewrite bool_decide_true by done. cbn [snd]. by rewrite <- !app_assoc.
Qed.

End InitFurther.

(** ** Run blocks *)

Section Blocking.

Context {N : pcsc.Native}.

(** X17: Run blocks until something happens.  While the session stays
    valid, every wait call succeeds and nobody cancels the context, Run
    does not return, whatever connect and disconnect answer: after any
    number of iterations it is still in its loop, having made exactly one
    wait call in each. *)
Theorem Run_keeps_running (fuel : nat) (m m1 : Machine) (w0 : pcsc.World) :
  (forall h w, fst (pcsc.IsValid h w) = None) ->
  (forall h sts t w, fst (fst (pcsc.GetStatusChange h sts t w)) = None) ->
  (forall w, pcsc.parentDone w = false) ->
  cause (sdk m) = None ->
  pcsc.IsValid (hctx (sdk m)) (world m) = (None, w0) ->
  readers (sdk m) <> [] ->
  select_readers (mkMachine (sdk m) w0 (trace m ++ [EvIsValid])) = (None, m1) ->
  build_states (readers (sdk m1)) <> [] ->
  eval (Run fuel) m = None /\
  count is_wait (trace (exec (Run fuel) m)) =
    (count is_wait (trace m) + fuel)%nat.
Proof.
  intros Hvalid Hwait Hdone Hc Hv Hne Hsel Htracked.
  destruct (select_readers_keeps _ _ _ Hsel) as (_ & Ht & _ & Hc1 & _).
  cbn [sdk world trace] in *. rewrite Hc in Hc1.
  destruct (runner_survives_card_errors fuel None
              (build_states (readers (sdk m1))) m1 Hvalid Hwait Hdone Hc1)
    as [Hev Hcount].
  unfold eval, exec in *.
  rewrite (Run_enters_loop fuel m m1 w0) by done.
  destruct (runner fuel None _ m1) as [[err|] m2]; cbn [fst snd] in *;
    [discriminate|].
  split; [done|]. rewrite Hcount, Ht, count_app. cbn. lia.
Qed.

End Blocking.

(** ** The further properties at work on scripted worlds *)

Lemma no_logger_no_records_witness :
  trace (do_calls [CallInit; CallRun 2; CallDispose; CallDispose]
           (boot healthy (zeroSDK false))) =
    [EvEstablish 2; EvListReaders; EvIsValid; EvIsValid;
     EvGetStatusChange [pcsc.mkReaderState "R0" 0 0]
       [pcsc.mkReaderState "R0" 0 32] (-1) None;
     EvIsValid; EvConnect "R0" 1 3; EvDisconnect (pcsc.mkCard 7 "T=1") 1;
     EvIsValid;
     EvGetStatusChange [pcsc.mkReaderState "R0" 32 32]
       [pcsc.mkReaderState "R0" 32 32] (-1) None;
     EvIsValid; EvConnect "R0" 1 3; EvDisconnect (pcsc.mkCard 7 "T=1") 1;
     EvCancel; EvRelease] /\
  count is_log
    (trace (do_calls [CallInit; CallRun 2; CallDispose; CallDispose]
              (boot healthy (zeroSDK false)))) = 0%nat.
Proof.
  split; [reflexivity|].
  exact (proj2 (no_logger_no_records
                  [CallInit; CallRun 2; CallDispose; CallDispose]
                  (boot healthy (zeroSDK false)) eq_refl)).
Defined.

Lemma policy_is_permanent_witness :
  readerSelect
    (sdk (do_calls [CallSelectReader None; CallInit;
                    CallSelectReader (Some select_second); CallRun 1;
                    CallDispose]
            (boot healthy (set_readerSelect (Some select_none) twoReaders)))) =
    Some select_none.
Proof.
  exact (policy_is_permanent select_none
           [CallSelectReader None; CallInit;
            CallSelectReader (Some select_second); CallRun 1; CallDispose]
           (boot healthy (set_readerSelect (Some select_none) twoReaders))
           eq_refl).
Defined.

Lemma dispose_first_witness :
  exec dispose (boot cancel_fails twoReaders) =
    @mkMachine (scripted cancel_fails) (set_disposed true twoReaders) 2%nat
      [EvLog LevelDebug "nfc: disposing..." [];
       EvLog LevelDebug "nfc: cancel pending actions" [];
       EvCancel;
       EvLog LevelError "nfc: cancel: no pending call" [];
       EvLog LevelDebug "nfc: released scard context" [];
       EvRelease;
       EvLog LevelDebug "nfc: sdk disposed" []].
Proof.
  exact (dispose_first (boot cancel_fails twoReaders) (pcsc.mkHContext 1)
           (Some errCancel) None 1%nat 2%nat
           eq_refl eq_refl eq_refl eq_refl).
Defined.

Lemma dispose_without_session_witness :
  exec dispose (boot healthy (zeroSDK true)) =
    @mkMachine (scripted healthy) (set_disposed true (zeroSDK true)) 0%nat
      [EvLog LevelDebug "nfc: disposing..." [];
       EvLog LevelDebug "nfc: sdk disposed" []].
Proof.
  exact (dispose_without_session (boot healthy (zeroSDK true))
           eq_refl eq_refl).
Defined.

Lemma Run_nil_means_cancelled_witness :
  eval (Run 1) (boot parent_cancelled twoReaders) = Some None /\
  ctx_is_done (exec (Run 1) (boot parent_cancelled twoReaders)) = true.
Proof.
  split; [reflexivity|].
  exact (Run_nil_means_cancelled 1 (boot parent_cancelled twoReaders) eq_refl).
Defined.

Lemma Run_context_done_witness :
  Run 1 (boot parent_cancelled twoReaders) =
    (Some None,
     @mkMachine (scripted parent_cancelled)
       (set_readers [Reader.mk 1 "R0" true; Reader.mk 2 "R1" false] twoReaders)
       1%nat
       [EvIsValid; EvWgWait; EvLog LevelDebug "nfc: exiting" []]).
Proof.
  exact (Run_context_done 0 (boot parent_cancelled twoReaders)
           (@mkMachine (scripted parent_cancelled)
              (set_readers [Reader.mk 1 "R0" true; Reader.mk 2 "R1" false]
                 twoReaders)
              1%nat [EvIsValid])
           1%nat eq_refl ltac:(discriminate) eq_refl ltac:(discriminate)
           eq_refl).
Defined.

Lemma Run_wait_failure_witness :
  fst (Run 3 (boot wait_fails twoReaders)) = Some (Some errWait) /\
  count is_wait (trace (exec (Run 3) (boot wait_fails twoReaders))) = 1%nat.
Proof.
  pose proof (Run_wait_failure 2 (boot wait_fails twoReaders)
           (@mkMachine (scripted wait_fails)
              (set_readers [Reader.mk 1 "R0" true; Reader.mk 2 "R1" false]
                 twoReaders)
              1%nat [EvIsValid])
           errWait
           (fun i st => pcsc.set_EventState (snd (on_wait wait_fails 2) i) st)
           1%nat 2%nat 3%nat
           eq_refl ltac:(discriminate) eq_refl ltac:(discriminate)
           eq_refl eq_refl eq_refl) as H.
  unfold exec. rewrite H. split; reflexivity.
Defined.

Lemma Run_session_lost_witness :
  fst (Run 3 (boot goes_invalid twoReaders)) = Some (Some errInvalid) /\
  count is_wait (trace (exec (Run 3) (boot goes_invalid twoReaders))) = 0%nat.
Proof.
  pose proof (Run_session_lost 2 (boot goes_invalid twoReaders)
           (@mkMachine (scripted goes_invalid)
              (set_readers [Reader.mk 1 "R0" true; Reader.mk 2 "R1" false]
                 twoReaders)
              1%nat [EvIsValid])
           errInvalid 1%nat 2%nat
           eq_refl ltac:(discriminate) eq_refl ltac:(discriminate)
           eq_refl eq_refl) as H.
  unfold exec. rewrite H. split; reflexivity.
Defined.



Lemma runner_session_lost_before_card_witness :
  fst (runner 5 None [pcsc.mkReaderState "R0" 0 0]
         (boot goes_invalid twoReaders)) = Some (Some errInvalid) /\
  count is_connect
    (trace (exec (runner 5 None [pcsc.mkReaderState "R0" 0 0])
              (boot goes_invalid twoReaders))) = 0%nat.
Proof.
  pose proof (runner_session_lost_before_card 4 (boot goes_invalid twoReaders)
           [pcsc.mkReaderState "R0" 0 0]
           (fun i st => pcsc.set_EventState (snd (on_wait goes_invalid 1) i) st)
           presentR0 [] errInvalid 1%nat 2%nat 3%nat
           eq_refl eq_refl eq_refl eq_refl eq_refl eq_refl) as H.
  unfold exec. rewrite H. split; reflexivity.
Defined.

Lemma init_logs_discovered_witness :
  trace (exec init (boot healthy (zeroSDK true))) =
    [EvEstablish 2;
     EvLog LevelDebug "nfc: scard context established" [];
     EvListReaders;
     EvLog LevelDebug "nfc: found"
       [AttrGroup "reader" [AttrInt "id" 1; AttrString "name" "R0"]];
     EvLog LevelDebug "nfc: found"
       [AttrGroup "reader" [AttrInt "id" 2; AttrString "name" "R1"]]].
Proof.
  pose proof (init_logs_discovered (boot healthy (zeroSDK true))
           (Some (pcsc.mkHContext 1)) ["R0"; "R1"] 1%nat 2%nat
           eq_refl eq_refl ltac:(discriminate)) as H.
  unfold exec. rewrite H. reflexivity.
Defined.

Lemma init_failure_stops_early_witness :
  exec init (boot unreachable (zeroSDK true)) =
    @mkMachine (scripted unreachable) (zeroSDK true) 1%nat [EvEstablish 2].
Proof.
  exact (init_failure_stops_early (boot unreachable (zeroSDK true))
           None (Some errInvalid) None ["R0"; "R1"] 1%nat 2%nat
           eq_refl eq_refl (or_introl (ex_intro _ errInvalid eq_refl))).
Defined.

Lemma Run_keeps_running_witness :
  eval (Run 4) (boot no_connect twoReaders) = None /\
  count is_wait (trace (exec (Run 4) (boot no_connect twoReaders))) = 4%nat.
Proof.
  exact (Run_keeps_running 4 (boot no_connect twoReaders)
           (@mkMachine (scripted no_connect)
              (set_readers [Reader.mk 1 "R0" true; Reader.mk 2 "R1" false]
                 twoReaders)
              1%nat [EvIsValid])
           1%nat
           (fun _ _ => eq_refl) (fun _ _ _ _ => eq_refl) (fun _ => eq_refl)
           eq_refl eq_refl ltac:(discriminate) eq_refl ltac:(discriminate)).
Defined.
